(** * DistributedQ: a shallow embedding of the queue engine, the worker
    policy and the HTTP producer surface.

    The broker (Redis) is modelled as an explicit state record; every
    client method of [pkg/queue/client.go] is a function on that state.
    Commands issued by one method are applied one after the other on the
    state: the model is the one of a broker serving one command (or one
    MULTI/EXEC block, or one script) at a time. *)

From Stdlib Require Import ZArith Lia Bool Sorted.
From stdpp Require Import base option list gmap strings pretty.

Local Open Scope Z_scope.

(** ** Machine integers *)

Module Int64.

Definition modulus : Z := 2 ^ 64.
Definition max_int : Z := 2 ^ 63 - 1.
Definition min_int : Z := - 2 ^ 63.

(** Two's complement wrap-around of Go's [int], [int64] and
    [time.Duration] arithmetic. *)
Definition wrap (x : Z) : Z := (x + 2 ^ 63) mod 2 ^ 64 - 2 ^ 63.

Definition add (x y : Z) : Z := wrap (x + y).
Definition mul (x y : Z) : Z := wrap (x * y).

(** [x << n] on a signed 64-bit operand: a negative count panics, a
    count of 64 or more yields 0. *)
Definition shl (x n : Z) : option Z :=
  if n <? 0 then None else Some (wrap (Z.shiftl x n)).

End Int64.

(** ** Conversion of an integer to a double (Go's [float64(n)])

    Every double of magnitude at least [2^53] is an integer, so the value
    of [float64(n)] is described by the integer it denotes: [n] rounded to
    53 significant bits, ties to even. *)

Module Float64.

Definition of_int (n : Z) : Z :=
  let a := Z.abs n in
  if a <? 2 ^ 53 then n
  else
    let e := Z.log2 a - 52 in
    let q := a / 2 ^ e in
    let r := a mod 2 ^ e in
    let h := 2 ^ (e - 1) in
    let q' := if r <? h then q
              else if h <? r then q + 1
              else if Z.even q then q else q + 1 in
    Z.sgn n * (q' * 2 ^ e).

End Float64.

(** ** Redis data types and commands *)

Module Redis.

(** *** Lists *)

Definition rpush (v : string) (l : list string) : list string := l ++ [v].

(** Removal of the first [n] occurrences of [v], scanning head to tail. *)
Fixpoint remove_first (n : nat) (v : string) (l : list string) : list string :=
  match n, l with
  | O, _ => l
  | _, [] => []
  | S n', x :: l' =>
      if String.eqb x v then remove_first n' v l'
      else x :: remove_first n v l'
  end.

(** [LREM key count v]: [count > 0] removes from the head, [count < 0]
    from the tail, [count = 0] removes every occurrence. *)
Definition lrem (count : Z) (v : string) (l : list string) : list string :=
  if 0 <? count then remove_first (Z.to_nat count) v l
  else if count <? 0 then rev (remove_first (Z.to_nat (- count)) v (rev l))
  else List.filter (fun x => negb (String.eqb x v)) l.

(** [LTRIM key start stop], negative indices counting from the tail. *)
Definition ltrim (start stop : Z) (l : list string) : list string :=
  let len := Z.of_nat (length l) in
  let start := if start <? 0 then len + start else start in
  let stop := if stop <? 0 then len + stop else stop in
  let start := if start <? 0 then 0 else start in
  if (stop <? start) || (len <=? start) then []
  else
    let stop := if len <=? stop then len - 1 else stop in
    take (Z.to_nat (stop - start + 1)) (drop (Z.to_nat start) l).

(** [LRANGE key 0 stop] for [stop >= -1]. *)
Definition lrange0 (stop : Z) (l : list string) : list string :=
  if stop <? 0 then (if stop =? -1 then l else take (Z.to_nat (Z.of_nat (length l) + stop + 1)) l)
  else take (Z.to_nat (stop + 1)) l.

(** *** Sorted sets

    A sorted set is kept the way Redis orders it: by ascending score,
    members of equal score in byte order; a member occurs once. *)

Definition zset := list (string * Z).

Definition entry_le (a b : string * Z) : bool :=
  (a.2 <? b.2) || ((a.2 =? b.2) && String.leb a.1 b.1).

Fixpoint zinsert (e : string * Z) (z : zset) : zset :=
  match z with
  | [] => [e]
  | x :: z' => if entry_le e x then e :: x :: z' else x :: zinsert e z'
  end.

Definition zrem (m : string) (z : zset) : zset :=
  List.filter (fun x => negb (String.eqb x.1 m)) z.

(** [ZADD key score member]: a member already present is re-scored. *)
Definition zadd (score : Z) (m : string) (z : zset) : zset :=
  zinsert (m, score) (zrem m z).

Definition zscore (m : string) (z : zset) : option Z :=
  snd <$> List.find (fun x => String.eqb x.1 m) z.

(** [ZRANGEBYSCORE key -inf max] *)
Definition zrangebyscore_upto (max : Z) (z : zset) : list string :=
  map fst (List.filter (fun x => x.2 <=? max) z).

(** [ZREMRANGEBYSCORE key -inf max] *)
Definition zremrangebyscore_upto (max : Z) (z : zset) : zset :=
  List.filter (fun x => negb (x.2 <=? max)) z.

Definition zcard (z : zset) : Z := Z.of_nat (length z).

End Redis.

(** ** [pkg/tasks]: the task model *)

Record Task := mkTask {
  ID : string;
  Type_ : string;
  Payload : string;      (* the payload's JSON text, never inspected *)
  CreatedAt : Z;         (* nanoseconds since the epoch *)
  RetryCount : Z;        (* Go [int] *)
  Priority : Z           (* Go [int] *)
}.

Definition PriorityLow : Z := 0.
Definition PriorityDefault : Z := 1.
Definition PriorityHigh : Z := 2.

Definition with_retry_count (t : Task) (n : Z) : Task :=
  mkTask (ID t) (Type_ t) (Payload t) (CreatedAt t) n (Priority t).

Definition with_created_at (t : Task) (c : Z) : Task :=
  mkTask (ID t) (Type_ t) (Payload t) c (RetryCount t) (Priority t).

(** [encoding/json] is outside the repository: the engine is stated over
    any encoder and decoder of tasks. [json_marshal] may fail (a payload
    that has no JSON form), [json_unmarshal] fails on text that is not the
    JSON of a task. *)
Class Codec := {
  json_marshal : Task -> option string;
  json_unmarshal : string -> option Task
}.

(** ** The broker state *)

Record Bucket := mkBucket { tokens : Z; last_refill : Z }.

Record Broker := mkBroker {
  queue_high : list string;
  queue_default : list string;
  queue_low : list string;
  processing_queue : list string;
  dead_letter_queue : list string;
  completed_queue : list string;
  delayed_queue : Redis.zset;
  ratelimit : gmap string Bucket;      (* hashes {tokens, last_refill} *)
  results : gmap string (string * Z)   (* result:<id> strings with the
                                          instant, in broker milliseconds,
                                          at which each expires *)
}.

Definition empty_broker : Broker :=
  mkBroker [] [] [] [] [] [] [] ∅ ∅.

Inductive ListKey :=
  QHigh | QDefault | QLow | Processing | DeadLetter | Completed.

Definition key_name (k : ListKey) : string :=
  match k with
  | QHigh => "queue:high"%string
  | QDefault => "queue:default"%string
  | QLow => "queue:low"%string
  | Processing => "processing_queue"%string
  | DeadLetter => "dead_letter_queue"%string
  | Completed => "completed_queue"%string
  end.

Definition get_list (k : ListKey) (st : Broker) : list string :=
  match k with
  | QHigh => queue_high st
  | QDefault => queue_default st
  | QLow => queue_low st
  | Processing => processing_queue st
  | DeadLetter => dead_letter_queue st
  | Completed => completed_queue st
  end.

Definition set_list (k : ListKey) (l : list string) (st : Broker) : Broker :=
  match k with
  | QHigh => mkBroker l (queue_default st) (queue_low st) (processing_queue st)
      (dead_letter_queue st) (completed_queue st) (delayed_queue st) (ratelimit st) (results st)
  | QDefault => mkBroker (queue_high st) l (queue_low st) (processing_queue st)
      (dead_letter_queue st) (completed_queue st) (delayed_queue st) (ratelimit st) (results st)
  | QLow => mkBroker (queue_high st) (queue_default st) l (processing_queue st)
      (dead_letter_queue st) (completed_queue st) (delayed_queue st) (ratelimit st) (results st)
  | Processing => mkBroker (queue_high st) (queue_default st) (queue_low st) l
      (dead_letter_queue st) (completed_queue st) (delayed_queue st) (ratelimit st) (results st)
  | DeadLetter => mkBroker (queue_high st) (queue_default st) (queue_low st) (processing_queue st)
      l (completed_queue st) (delayed_queue st) (ratelimit st) (results st)
  | Completed => mkBroker (queue_high st) (queue_default st) (queue_low st) (processing_queue st)
      (dead_letter_queue st) l (delayed_queue st) (ratelimit st) (results st)
  end.

Definition set_delayed (z : Redis.zset) (st : Broker) : Broker :=
  mkBroker (queue_high st) (queue_default st) (queue_low st) (processing_queue st)
    (dead_letter_queue st) (completed_queue st) z (ratelimit st) (results st).

Definition set_ratelimit (m : gmap string Bucket) (st : Broker) : Broker :=
  mkBroker (queue_high st) (queue_default st) (queue_low st) (processing_queue st)
    (dead_letter_queue st) (completed_queue st) (delayed_queue st) m (results st).

Definition set_results (m : gmap string (string * Z)) (st : Broker) : Broker :=
  mkBroker (queue_high st) (queue_default st) (queue_low st) (processing_queue st)
    (dead_letter_queue st) (completed_queue st) (delayed_queue st) (ratelimit st) m.

(** Single list commands on the broker. *)

Definition RPush (k : ListKey) (v : string) (st : Broker) : Broker :=
  set_list k (Redis.rpush v (get_list k st)) st.

Definition LRem (k : ListKey) (count : Z) (v : string) (st : Broker) : Broker :=
  set_list k (Redis.lrem count v (get_list k st)) st.

Definition LTrim (k : ListKey) (start stop : Z) (st : Broker) : Broker :=
  set_list k (Redis.ltrim start stop (get_list k st)) st.

(** [BLMOVE src dst LEFT RIGHT timeout]: the head of [src] moves to the
    tail of [dst]; on an empty [src] the wait times out ([redis.Nil]). *)
Definition BLMove (src dst : ListKey) (st : Broker) : option (string * Broker) :=
  match get_list src st with
  | [] => None
  | v :: rest => Some (v, RPush dst v (set_list src rest st))
  end.

(** ** [pkg/queue]: the client *)

(** Outcome of a method that returns [error]: a state after a nil error,
    an error with the broker untouched, or a run-time panic. *)
Inductive Outcome :=
  | Ok (st : Broker)
  | Failed
  | Panicked.

Inductive DequeueResult :=
  | DqTask (t : Task) (raw : string)
  | DqNil               (* redis.Nil: nothing in any queue *)
  | DqError.            (* the entry read is not the JSON of a task *)

Section Client.

Context `{Codec}.

Definition Enqueue (task : Task) (st : Broker) : Outcome :=
  match json_marshal task with
  | None => Failed
  | Some data =>
      let queueName :=
        if Priority task =? PriorityHigh then QHigh
        else if Priority task =? PriorityLow then QLow
        else QDefault in
      Ok (RPush queueName data st)
  end.

Fixpoint dequeue_loop (queues : list ListKey) (st : Broker) : DequeueResult * Broker :=
  match queues with
  | [] => (DqNil, st)
  | q :: queues' =>
      match BLMove q Processing st with
      | Some (result, st') =>
          match json_unmarshal result with
          | Some task => (DqTask task result, st')
          | None => (DqError, st')
          end
      | None => dequeue_loop queues' st
      end
  end.

Definition Dequeue (st : Broker) : DequeueResult * Broker :=
  dequeue_loop [QHigh; QDefault; QLow] st.

Definition Ack (rawTask : string) (st : Broker) : Broker :=
  LRem Processing 1 rawTask st.

Definition Complete (rawTask : string) (st : Broker) : Broker :=
  let st := LRem Processing 1 rawTask st in
  let st := RPush Completed rawTask st in
  LTrim Completed (-100) (-1) st.

(** [time.Duration(1<<task.RetryCount) * 100 * time.Millisecond], in
    nanoseconds. *)
Definition backoff (retryCount : Z) : option Z :=
  match Int64.shl 1 retryCount with
  | None => None
  | Some s => Some (Int64.mul (Int64.mul s 100) 1000000)
  end.

(** [now] is the reading of [time.Now()] in nanoseconds;
    [time.Now().Add(d).UnixNano()] is [now + d] on 64 bits. *)
Definition Retry (now : Z) (task : Task) (rawTask : string) (st : Broker) : Outcome :=
  let task := with_retry_count task (Int64.add (RetryCount task) 1) in
  match backoff (RetryCount task) with
  | None => Panicked
  | Some d =>
      let processAt := Int64.add now d in
      match json_marshal task with
      | None => Failed
      | Some newTaskData =>
          let st := set_delayed
                      (Redis.zadd (Float64.of_int processAt) newTaskData (delayed_queue st)) st in
          Ok (LRem Processing 1 rawTask st)
      end
  end.

Definition Fail (task : Task) (rawTask : string) (st : Broker) : Outcome :=
  match json_marshal task with
  | None => Failed
  | Some data =>
      let st := RPush DeadLetter data st in
      Ok (LRem Processing 1 rawTask st)
  end.

(** The promotion script of [StartScheduler]; [now] is its [ARGV[1]]. *)
Definition promote_script (now : Z) (st : Broker) : Z * Broker :=
  let tasks := Redis.zrangebyscore_upto now (delayed_queue st) in
  let st :=
    if (0 <? Z.of_nat (length tasks)) then
      let st := set_delayed (Redis.zremrangebyscore_upto now (delayed_queue st)) st in
      fold_left (fun s task => RPush QDefault task s) tasks st
    else st in
  (Z.of_nat (length tasks), st).

(** One tick of the scheduler loop at wall-clock [nowNs]. *)
Definition scheduler_tick (nowNs : Z) (st : Broker) : Broker :=
  (promote_script (Float64.of_int nowNs) st).2.

End Client.

(** ** Rate limiter *)

Section RateLimiter.

(** The token-bucket script of [Allow]. [rate], [burst], [now] and
    [requested] are its [ARGV]; they are integers and so is every value
    the script computes from them. *)
Definition allow_script (key : string) (rate burst now requested : Z)
    (st : Broker) : Z * Broker :=
  let '(tokens, last_refill) :=
    match ratelimit st !! key with
    | Some b => (tokens b, last_refill b)
    | None => (burst, now)
    end in
  let delta := Z.max 0 (now - last_refill) in
  let new_tokens := Z.min burst (tokens + delta * rate) in
  if requested <=? new_tokens then
    (1, set_ratelimit (<[key := mkBucket (new_tokens - requested) now]> (ratelimit st)) st)
  else
    (0, set_ratelimit (<[key := mkBucket new_tokens now]> (ratelimit st)) st).

(** [time.Now().Unix()] of a clock reading in nanoseconds. *)
Definition unix_seconds (nowNs : Z) : Z := nowNs / 1000000000.

Definition Allow (nowNs : Z) (key : string) (limit burst : Z) (st : Broker) : bool * Broker :=
  let '(result, st') := allow_script key limit burst (unix_seconds nowNs) 1 st in
  (result =? 1, st').


End RateLimiter.

(** ** Result store, depths, inspection, cron *)

Section Observers.

Context `{Codec}.

Definition result_key (taskID : string) : string :=
  String.append "result:" taskID.

(** The broker's clock, in milliseconds, at a reading in nanoseconds. *)
Definition unix_millis (nowNs : Z) : Z := nowNs / 1000000.

(** [24*time.Hour], in milliseconds. *)
Definition result_ttl : Z := 86400000.

(** [SetResult] at clock reading [nowNs], with the JSON text of the value
    already produced: [SET key data EX 86400]. *)
Definition SetResult (nowNs : Z) (taskID : string) (data : string) (st : Broker) : Broker :=
  set_results (<[result_key taskID := (data, unix_millis nowNs + result_ttl)]> (results st)) st.

(** [GetResult] at clock reading [nowNs]: a key whose expiry instant has
    passed reads as absent ([redis.Nil]). *)
Definition GetResult (nowNs : Z) (taskID : string) (st : Broker) : option string :=
  match results st !! result_key taskID with
  | Some (data, expires) => if expires <? unix_millis nowNs then None else Some data
  | None => None
  end.

Definition GetQueueDepths (st : Broker) : gmap string Z :=
  let depths : gmap string Z :=
    fold_left (fun d q => <[key_name q := Z.of_nat (length (get_list q st))]> d)
              [QHigh; QDefault; QLow; Processing; DeadLetter] ∅ in
  <["delayed_queue"%string := Redis.zcard (delayed_queue st)]> depths.

Definition list_key_of_name (name : string) : option ListKey :=
  List.find (fun k => String.eqb (key_name k) name)
            [QHigh; QDefault; QLow; Processing; DeadLetter; Completed].

(** [InspectQueue]: [None] is the broker's wrong-type error on a key
    that holds a hash or a string. Entries that do not decode are
    skipped. *)
Definition InspectQueue (queueName : string) (limit : Z) (st : Broker)
    : option (list Task) :=
  let rawTasks :=
    if String.eqb queueName "delayed_queue" then
      Some (Redis.lrange0 (limit - 1) (map fst (delayed_queue st)))
    else
      match list_key_of_name queueName with
      | Some k => Some (Redis.lrange0 (limit - 1) (get_list k st))
      | None =>
          if bool_decide (is_Some (ratelimit st !! queueName))
             || bool_decide (is_Some (results st !! queueName))
          then None else Some []
      end in
  match rawTasks with
  | Some raws => Some (omap json_unmarshal raws)
  | None => None
  end.

(** One firing of a cron entry registered by [Schedule]. *)
Definition cron_fire (now : Z) (task : Task) (st : Broker) : Outcome :=
  Enqueue (with_created_at task now) st.

End Observers.

(** ** [cmd/worker]: the worker loop *)

(** The handlers the loop dispatches to; [true] is a non-nil error. *)
Class Handlers := {
  processEmail : Task -> bool;
  processImageResize : Task -> bool;
  processGenericTask : Task -> bool;
  completion_summary : Z -> string     (* JSON of the stored result *)
}.

Section Worker.

Context `{Codec} `{Handlers}.

(** The loop drops the error a client call returns: a failed call
    leaves the broker as it was; a panic ends the process. *)
Definition ignore_error (o : Outcome) (st : Broker) : Outcome :=
  match o with
  | Ok st' => Ok st'
  | Failed => Ok st
  | Panicked => Panicked
  end.

Definition dispatch (task : Task) : bool :=
  if String.eqb (Type_ task) "email" then processEmail task
  else if String.eqb (Type_ task) "slow" then false
  else if String.eqb (Type_ task) "image_resize" then processImageResize task
  else processGenericTask task.

(** What the loop does once the handler has returned [err]. *)
Definition settle (err : bool) (now : Z) (task : Task) (raw : string)
    (st : Broker) : Outcome :=
  if err then
    if RetryCount task <? 3
    then ignore_error (Retry now task raw st) st
    else ignore_error (Fail task raw st) st
  else
    let st := Complete raw st in
    Ok (SetResult now (ID task) (completion_summary now) st).

(** One iteration of [startWorker]: [tAllow] and [tEnd] are the clock
    readings at the rate-limit check and at the outcome. *)
Definition worker_iteration (tAllow tEnd : Z) (st : Broker) : Outcome :=
  match Dequeue st with
  | (DqTask task raw, st) =>
      let limit := 10 in
      let burst := 20 in
      let '(allowed, st) :=
        Allow tAllow (String.append "ratelimit:" (Type_ task)) limit burst st in
      if negb allowed then ignore_error (Retry tEnd task raw st) st
      else settle (dispatch task) tEnd task raw st
  | (_, st) => Ok st
  end.

End Worker.

(** ** [cmd/server]: the HTTP producer surface *)

Record Request := mkRequest {
  Method : string;
  Path : string;
  Header : gmap string string;
  Query : gmap string string;
  Body : string
}.

(** [textproto.CanonicalMIMEHeaderKey]: a name made of token bytes has
    its first letter and every letter after a hyphen in upper case and the
    other letters in lower case; any other name is left as it is. *)
Definition valid_header_byte (c : Ascii.ascii) : bool :=
  let n := Ascii.nat_of_ascii c in
  ((48 <=? n) && (n <=? 57) || (65 <=? n) && (n <=? 90) || (97 <=? n) && (n <=? 122)
   || (n =? 33) || (35 <=? n) && (n <=? 39) || (n =? 42) || (n =? 43) || (n =? 45)
   || (n =? 46) || (94 <=? n) && (n <=? 96) || (n =? 124) || (n =? 126))%nat.

Definition upper_byte (c : Ascii.ascii) : Ascii.ascii :=
  let n := Ascii.nat_of_ascii c in
  if ((97 <=? n) && (n <=? 122))%nat then Ascii.ascii_of_nat (n - 32) else c.

Definition lower_byte (c : Ascii.ascii) : Ascii.ascii :=
  let n := Ascii.nat_of_ascii c in
  if ((65 <=? n) && (n <=? 90))%nat then Ascii.ascii_of_nat (n + 32) else c.

Fixpoint all_bytes (f : Ascii.ascii -> bool) (s : string) : bool :=
  match s with
  | EmptyString => true
  | String c s' => f c && all_bytes f s'
  end.

Fixpoint canonical_bytes (upper : bool) (s : string) : string :=
  match s with
  | EmptyString => EmptyString
  | String c s' =>
      let c := if upper then upper_byte c else lower_byte c in
      String c (canonical_bytes (Ascii.eqb c (Ascii.ascii_of_nat 45)) s')
  end.

Definition CanonicalMIMEHeaderKey (s : string) : string :=
  if all_bytes valid_header_byte s then canonical_bytes true s else s.

(** [Header r] is Go's [http.Header] of the request, of which the first
    value of each name is kept. [r.Header.Get] looks a name up in its
    canonical form, and [r.URL.Query().Get] as it is; both give the empty
    string when the name is absent. *)
Definition header_get (k : string) (r : Request) : string :=
  default EmptyString (Header r !! CanonicalMIMEHeaderKey k).

Definition query_get (k : string) (r : Request) : string :=
  default EmptyString (Query r !! k).

(** A request with the header [name: value] set, as [Header.Set] and the
    server's reading of the request line both store it: under the
    canonical form of the name. *)
Definition with_header (name value : string) (r : Request) : Request :=
  mkRequest (Method r) (Path r) (<[CanonicalMIMEHeaderKey name := value]> (Header r))
            (Query r) (Body r).

Record ResponseWriter := mkResponse {
  status : option Z;                    (* [None] until the header is written *)
  resp_header : gmap string string;
  resp_body : string
}.

Definition new_response : ResponseWriter := mkResponse None ∅ EmptyString.

(** The status the client receives. *)
Definition status_code (w : ResponseWriter) : Z := default 200 (status w).

Definition StatusOK : Z := 200.
Definition StatusBadRequest : Z := 400.
Definition StatusUnauthorized : Z := 401.
Definition StatusNotFound : Z := 404.
Definition StatusMethodNotAllowed : Z := 405.
Definition StatusInternalServerError : Z := 500.

Definition header_set (k v : string) (w : ResponseWriter) : ResponseWriter :=
  mkResponse (status w) (<[k := v]> (resp_header w)) (resp_body w).

Definition WriteHeader (code : Z) (w : ResponseWriter) : ResponseWriter :=
  match status w with
  | Some _ => w
  | None => mkResponse (Some code) (resp_header w) (resp_body w)
  end.

Definition Write (data : string) (w : ResponseWriter) : ResponseWriter :=
  let w := WriteHeader StatusOK w in
  mkResponse (status w) (resp_header w) (String.append (resp_body w) data).

Definition newline : string := String (Ascii.ascii_of_nat 10) EmptyString.

Definition http_Error (msg : string) (code : Z) (w : ResponseWriter) : ResponseWriter :=
  let w := header_set "Content-Type" "text/plain; charset=utf-8" w in
  let w := header_set "X-Content-Type-Options" "nosniff" w in
  let w := WriteHeader code w in
  Write (String.append msg newline) w.

(** What the server holds: the broker and the registered cron entries. *)
Record Server := mkServer {
  broker : Broker;
  cron_entries : list (string * Task)
}.

Definition Handler : Type :=
  Request -> ResponseWriter * Server -> ResponseWriter * Server.

Definition authMiddleware (next : Handler) (requiredKey : string) : Handler :=
  fun r '(w, s) =>
    if String.eqb requiredKey EmptyString then next r (w, s)
    else
      let apiKey := header_get "X-API-Key" r in
      if negb (String.eqb apiKey requiredKey)
      then (http_Error "Unauthorized" StatusUnauthorized w, s)
      else next r (w, s).

Definition enableCORS (next : Handler) : Handler :=
  fun r '(w, s) =>
    let w := header_set "Access-Control-Allow-Origin" "*" w in
    let w := header_set "Access-Control-Allow-Methods" "POST, GET, OPTIONS, PUT, DELETE" w in
    let w := header_set "Access-Control-Allow-Headers"
      "Accept, Content-Type, Content-Length, Accept-Encoding, X-CSRF-Token, Authorization, X-API-Key" w in
    if String.eqb (Method r) "OPTIONS" then (WriteHeader StatusOK w, s)
    else next r (w, s).

(** The fields a JSON request body carries; an absent field is [None].
    Decoding into the handler's struct leaves the Go zero value in the
    place of an absent field. *)
Record BodyFields := mkBody {
  f_spec : option string;
  f_type : option string;
  f_payload : option string;
  f_priority : option Z
}.

(** What the server takes from outside the repository: the JSON decoder
    of request bodies ([None]: the body does not decode), the cron
    expression parser, and the JSON encoders of the two listings. *)
Class Wire := {
  decode_body : string -> option BodyFields;
  cron_parse_ok : string -> bool;
  encode_depths : gmap string Z -> string;
  encode_tasks : list Task -> string
}.

Section Router.

Context `{Codec} `{Wire}.

(** [uuid] and [now] are what [uuid.New().String()] and [time.Now()]
    give during the request. Where a handler answers with the text of a
    library error ([err.Error()]), a fixed text stands for it. *)
Variable uuid : string.
Variable now : Z.

Definition task_of_body (b : BodyFields) : Task :=
  mkTask uuid (default EmptyString (f_type b)) (default "null"%string (f_payload b))
         now 0 (default 0 (f_priority b)).

Definition enqueueHandler : Handler :=
  fun r '(w, s) =>
    if negb (String.eqb (Method r) "POST")
    then (http_Error "Method not allowed" StatusMethodNotAllowed w, s)
    else
      match decode_body (Body r) with
      | None => (http_Error "decode error" StatusBadRequest w, s)
      | Some req =>
          let task := task_of_body req in
          match Enqueue task (broker s) with
          | Ok st =>
              (Write (String.append "Task enqueued: " (String.append (ID task) newline)) w,
               mkServer st (cron_entries s))
          | _ => (http_Error "enqueue error" StatusInternalServerError w, s)
          end
      end.

Definition resultHandler : Handler :=
  fun r '(w, s) =>
    let taskID := query_get "id" r in
    if String.eqb taskID EmptyString
    then (http_Error "Missing task ID" StatusBadRequest w, s)
    else
      match GetResult now taskID (broker s) with
      | None => (http_Error "Result not found" StatusNotFound w, s)
      | Some result =>
          (Write result (header_set "Content-Type" "application/json" w), s)
      end.

Definition scheduleHandler : Handler :=
  fun r '(w, s) =>
    if negb (String.eqb (Method r) "POST")
    then (http_Error "Method not allowed" StatusMethodNotAllowed w, s)
    else
      match decode_body (Body r) with
      | None => (http_Error "decode error" StatusBadRequest w, s)
      | Some req =>
          let task := task_of_body req in
          let spec := default EmptyString (f_spec req) in
          if cron_parse_ok spec then
            let entryID := Z.of_nat (length (cron_entries s)) + 1 in
            (Write (String.append "Job scheduled with EntryID: "
                      (String.append (pretty entryID) newline)) w,
             mkServer (broker s) (cron_entries s ++ [(spec, task)]))
          else (http_Error "Invalid cron spec" StatusBadRequest w, s)
      end.

Definition statsHandler : Handler :=
  fun r '(w, s) =>
    if negb (String.eqb (Method r) "GET")
    then (http_Error "Method not allowed" StatusMethodNotAllowed w, s)
    else
      let depths := GetQueueDepths (broker s) in
      (Write (encode_depths depths) (header_set "Content-Type" "application/json" w), s).

Definition tasksHandler : Handler :=
  fun r '(w, s) =>
    if negb (String.eqb (Method r) "GET")
    then (http_Error "Method not allowed" StatusMethodNotAllowed w, s)
    else
      let queueName := query_get "queue" r in
      if String.eqb queueName EmptyString
      then (http_Error "Missing queue parameter" StatusBadRequest w, s)
      else
        match InspectQueue queueName 50 (broker s) with
        | None => (http_Error "inspect error" StatusInternalServerError w, s)
        | Some tasks =>
            (Write (encode_tasks tasks) (header_set "Content-Type" "application/json" w), s)
        end.

Definition NotFound : Handler :=
  fun r '(w, s) => (http_Error "404 page not found" StatusNotFound w, s).

(** The routes of [setupRouter]; [endpoint] is the handler registered
    for a path. *)
Definition endpoint (path : string) : option Handler :=
  if String.eqb path "/enqueue" then Some enqueueHandler
  else if String.eqb path "/result" then Some resultHandler
  else if String.eqb path "/schedule" then Some scheduleHandler
  else if String.eqb path "/stats" then Some statsHandler
  else if String.eqb path "/tasks" then Some tasksHandler
  else None.

Definition setupRouter (apiKey : string) : Handler :=
  fun r ws =>
    match endpoint (Path r) with
    | Some handler => enableCORS (authMiddleware handler apiKey) r ws
    | None => NotFound r ws
    end.

End Router.

(** ** Operation sequences *)

Inductive Op :=
  | OpEnqueue (task : Task)
  | OpDequeue.

Section Runs.

Context `{Codec}.

Definition run_op (st : Broker) (op : Op) : Broker :=
  match op with
  | OpEnqueue task =>
      match Enqueue task st with
      | Ok st' => st'
      | _ => st
      end
  | OpDequeue => (Dequeue st).2
  end.

Definition run_ops (ops : list Op) (st : Broker) : Broker :=
  fold_left run_op ops st.

(** The encoded forms the [Enqueue] calls of a run have pushed. *)
Definition enqueued (ops : list Op) : list string :=
  omap (fun op => match op with
                  | OpEnqueue task => json_marshal task
                  | OpDequeue => None
                  end) ops.

Definition complete_all (raws : list string) (st : Broker) : Broker :=
  fold_left (fun s raw => Complete raw s) raws st.

(** Scheduler replicas ticking one after the other, as the broker
    serialises their scripts; the promoted counts are kept. *)
Fixpoint promote_all (nows : list Z) (st : Broker) : list Z * Broker :=
  match nows with
  | [] => ([], st)
  | now :: nows' =>
      let '(n, st1) := promote_script now st in
      let '(ns, st2) := promote_all nows' st1 in
      (n :: ns, st2)
  end.

End Runs.

Fixpoint count_of (v : string) (l : list string) : nat :=
  match l with
  | [] => O
  | x :: l' => (if String.eqb x v then 1 else 0)%nat + count_of v l'
  end.

(** Every place a task can be found in while it is ready, in flight or
    completed. *)
Definition all_places (st : Broker) : list string :=
  queue_high st ++ queue_default st ++ queue_low st
  ++ processing_queue st ++ completed_queue st.

Definition occurrences (raw : string) (st : Broker) : nat :=
  (count_of raw (queue_high st) + count_of raw (queue_default st)
   + count_of raw (queue_low st) + count_of raw (processing_queue st)
   + count_of raw (completed_queue st))%nat.

(** The trailing [n] entries of a list. *)
Definition last_n {A} (n : nat) (l : list A) : list A :=
  drop (length l - n)%nat l.

(** A sorted set as the broker keeps it: no member twice, scores
    ascending. *)
Definition score_le (a b : string * Z) : Prop := a.2 <= b.2.

Definition zset_wf (z : Redis.zset) : Prop :=
  NoDup (map fst z) /\ StronglySorted score_le z.

(** The entries of a delay set that a tick at [now] finds due. *)
Definition due_entries (now : Z) (z : Redis.zset) : Redis.zset :=
  List.filter (fun e => e.2 <=? now) z.

Definition total (ns : list Z) : Z := fold_right Z.add 0 ns.

(** Scheduler ticks at the given clock readings, one after the other. *)
Definition tick_all (nows : list Z) (st : Broker) : Broker :=
  fold_left (fun s nowNs => scheduler_tick nowNs s) nows st.



(** ** A concrete codec

    A small JSON rendering of tasks and request bodies, used to run the
    model on concrete inputs. Strings are taken verbatim. *)

Module Sample.

Fixpoint strip_prefix (p s : string) : option string :=
  match p, s with
  | EmptyString, _ => Some s
  | String a p', String b s' => if Ascii.eqb a b then strip_prefix p' s' else None
  | String _ _, EmptyString => None
  end.

(** Split at the first occurrence of [sep]. *)
Fixpoint split_on (sep s : string) : option (string * string) :=
  match strip_prefix sep s with
  | Some rest => Some (EmptyString, rest)
  | None =>
      match s with
      | EmptyString => None
      | String c s' =>
          match split_on sep s' with
          | Some (a, b) => Some (String c a, b)
          | None => None
          end
      end
  end.

(** [s] without its suffix [q], when it ends with it. *)
Fixpoint strip_suffix (q s : string) : option string :=
  if String.eqb s q then Some EmptyString
  else
    match s with
    | EmptyString => None
    | String c s' => String c <$> strip_suffix q s'
    end.

Definition is_digit (c : Ascii.ascii) : bool :=
  let n := Ascii.nat_of_ascii c in (48 <=? n)%nat && (n <=? 57)%nat.

Fixpoint digits (acc : Z) (s : string) : option Z :=
  match s with
  | EmptyString => Some acc
  | String c s' =>
      if is_digit c
      then digits (10 * acc + Z.of_nat (Ascii.nat_of_ascii c - 48)) s'
      else None
  end.

Definition parse_int (s : string) : option Z :=
  match s with
  | EmptyString => None
  | String c s' =>
      if Ascii.eqb c (Ascii.ascii_of_nat 45)
      then (if String.eqb s' EmptyString then None else Z.opp <$> digits 0 s')
      else digits 0 s
  end.

Definition quote : string := String (Ascii.ascii_of_nat 34) EmptyString.

Definition cat (l : list string) : string := String.concat EmptyString l.

(** [,"name":] *)
Definition member (name : string) : string := cat [","; quote; name; quote; ":"]%string.

Definition render (t : Task) : string :=
  cat [ "{"; quote; "id"; quote; ":"; quote; ID t; quote;
        member "type"; quote; Type_ t; quote;
        member "payload"; Payload t;
        member "created_at"; pretty (CreatedAt t);
        member "retry_count"; pretty (RetryCount t);
        member "priority"; pretty (Priority t); "}" ]%string.

Definition parse (s : string) : option Task :=
  s ← strip_prefix (cat ["{"; quote; "id"; quote; ":"; quote]%string) s;
  '(id, s) ← split_on (String.append quote (String.append (member "type") quote)) s;
  '(ty, s) ← split_on (String.append quote (member "payload")) s;
  '(payload, s) ← split_on (member "created_at") s;
  '(created, s) ← split_on (member "retry_count") s;
  '(retry, s) ← split_on (member "priority") s;
  '(prio, s) ← split_on "}" s;
  created ← parse_int created;
  retry ← parse_int retry;
  prio ← parse_int prio;
  if String.eqb s EmptyString then Some (mkTask id ty payload created retry prio) else None.

#[export] Instance codec : Codec :=
  {| json_marshal := fun t => Some (render t); json_unmarshal := parse |}.

(** Request bodies [{"type":"T","payload":P}], with an optional
    trailing ["priority":N] member. *)
Definition parse_body (s : string) : option BodyFields :=
  s ← strip_prefix (cat ["{"; quote; "type"; quote; ":"; quote]%string) s;
  '(ty, s) ← split_on (String.append quote (member "payload")) s;
  match split_on (member "priority") s with
  | Some (payload, s) =>
      '(prio, s) ← split_on "}" s;
      prio ← parse_int prio;
      if String.eqb s EmptyString
      then Some (mkBody None (Some ty) (Some payload) (Some prio)) else None
  | None =>
      payload ← strip_suffix "}" s;
      Some (mkBody None (Some ty) (Some payload) None)
  end.

#[export] Instance wire : Wire :=
  {| decode_body := parse_body;
     cron_parse_ok := fun spec => negb (String.eqb spec EmptyString);
     encode_depths := fun d =>
       String.concat "," (map (fun kv => cat [kv.1; ":"; pretty kv.2]%string) (map_to_list d));
     encode_tasks := fun ts => String.concat "," (map render ts) |}.

(** Bodies of [/schedule]: a leading ["spec":"S"] member before the
    members of [parse_body]. *)
Definition parse_schedule_body (s : string) : option BodyFields :=
  s ← strip_prefix (cat ["{"; quote; "spec"; quote; ":"; quote]%string) s;
  '(spec, s) ← split_on (cat [quote; ","]%string) s;
  b ← parse_body (String.append "{" s);
  Some (mkBody (Some spec) (f_type b) (f_payload b) (f_priority b)).

Definition schedule_wire : Wire :=
  {| decode_body := parse_schedule_body;
     cron_parse_ok := fun spec => negb (String.eqb spec EmptyString);
     encode_depths := fun d => String.concat "," (map (fun kv => kv.1) (map_to_list d));
     encode_tasks := fun ts => String.concat "," (map render ts) |}.

#[export] Instance handlers : Handlers :=
  {| processEmail := fun _ => false;
     processImageResize := fun _ => false;
     processGenericTask := fun _ => false;
     completion_summary := fun now => cat ["{"; quote; "timestamp"; quote; ":"; pretty now; "}"]%string |}.

(** Handlers that all report an error. *)
Definition failing : Handlers :=
  {| processEmail := fun _ => true;
     processImageResize := fun _ => true;
     processGenericTask := fun _ => true;
     completion_summary := fun now => pretty now |}.

Definition task1 : Task := mkTask "t-1" "email" "{}" 1700000000000000000 0 PriorityDefault.

End Sample.

(** ** Derived observations *)

(** The sum of the depths [GetQueueDepths] reports. *)
Definition total_depth (st : Broker) : Z :=
  map_fold (fun _ depth acc => depth + acc) 0 (GetQueueDepths st).

(** * Properties *)

(** ** Lists and counting *)

Lemma count_of_app v l1 l2 :
  count_of v (l1 ++ l2) = (count_of v l1 + count_of v l2)%nat.
Proof. induction l1 as [|x l1 IH]; simpl; [done|]. rewrite IH. lia. Qed.

Lemma count_of_perm v l1 l2 : l1 ≡ₚ l2 → count_of v l1 = count_of v l2.
Proof.
  induction 1 as [|x l1 l2 _ IH|x y l|l1 l2 l3 _ IH1 _ IH2]; simpl; lia.
Qed.

Lemma count_of_not_in v l : v ∉ l → count_of v l = O.
Proof.
  induction l as [|x l IH]; simpl; [done|].
  intros Hn. apply not_elem_of_cons in Hn as [Hne Hn].
  rewrite (IH Hn). destruct (String.eqb_spec x v); [congruence|done].
Qed.

Lemma count_of_nodup v l : NoDup l → v ∈ l → count_of v l = 1%nat.
Proof.
  induction 1 as [|x l Hx Hnd IH]; intros Hin.
  - by apply elem_of_nil in Hin.
  - simpl. destruct (String.eqb_spec x v) as [->|Hne].
    + by rewrite (count_of_not_in _ _ Hx).
    + apply elem_of_cons in Hin as [->|Hin]; [done|]. by rewrite IH.
Qed.

Lemma occurrences_all_places raw st :
  occurrences raw st = count_of raw (all_places st).
Proof. unfold occurrences, all_places. rewrite !count_of_app. lia. Qed.

(** ** Dequeue *)

Section DequeueFacts.

Context `{Codec}.

Lemma dequeue_loop_cons_hit q qs st r rest :
  get_list q st = r :: rest →
  dequeue_loop (q :: qs) st =
    (match json_unmarshal r with Some t => DqTask t r | None => DqError end,
     RPush Processing r (set_list q rest st)).
Proof.
  intros Hq. simpl. unfold BLMove. rewrite Hq.
  by destruct (json_unmarshal r).
Qed.

Lemma dequeue_loop_cons_miss q qs st :
  get_list q st = [] → dequeue_loop (q :: qs) st = dequeue_loop qs st.
Proof. intros Hq. simpl. unfold BLMove. by rewrite Hq. Qed.

(** Whatever it returns, [Dequeue] only moves entries among the ready
    queues and the in-flight list. *)
Lemma dequeue_all_places st : all_places (Dequeue st).2 ≡ₚ all_places st.
Proof.
  unfold Dequeue.
  destruct (queue_high st) as [|r rest] eqn:Hh.
  2:{ rewrite (dequeue_loop_cons_hit QHigh _ st r rest Hh).
      destruct st; simpl in *; subst. unfold all_places; simpl.
      solve_Permutation. }
  rewrite dequeue_loop_cons_miss by done.
  destruct (queue_default st) as [|r rest] eqn:Hd.
  2:{ rewrite (dequeue_loop_cons_hit QDefault _ st r rest Hd).
      destruct st; simpl in *; subst. unfold all_places; simpl.
      solve_Permutation. }
  rewrite dequeue_loop_cons_miss by done.
  destruct (queue_low st) as [|r rest] eqn:Hl.
  2:{ rewrite (dequeue_loop_cons_hit QLow _ st r rest Hl).
      destruct st; simpl in *; subst. unfold all_places; simpl.
      solve_Permutation. }
  rewrite dequeue_loop_cons_miss by done. done.
Qed.

Lemma run_op_all_places st op :
  all_places (run_op st op) ≡ₚ all_places st ++ enqueued [op].
Proof.
  destruct op as [task|]; simpl.
  - unfold enqueued, Enqueue; simpl.
    destruct (json_marshal task) as [data|]; simpl; [|by rewrite app_nil_r].
    destruct st; unfold all_places.
    destruct (Priority task =? PriorityHigh);
      [|destruct (Priority task =? PriorityLow)]; simpl; unfold Redis.rpush;
      solve_Permutation.
  - rewrite dequeue_all_places. unfold enqueued; simpl. by rewrite app_nil_r.
Qed.

Lemma enqueued_app ops1 ops2 : enqueued (ops1 ++ ops2) = enqueued ops1 ++ enqueued ops2.
Proof. unfold enqueued. by rewrite omap_app. Qed.

Lemma run_ops_all_places ops st :
  all_places (run_ops ops st) ≡ₚ all_places st ++ enqueued ops.
Proof.
  revert st. induction ops as [|op ops IH]; intros st.
  - simpl. by rewrite app_nil_r.
  - rewrite (enqueued_app [op] ops : enqueued (op :: ops) = _).
    change (run_ops (op :: ops) st) with (run_ops ops (run_op st op)).
    rewrite IH, run_op_all_places. by rewrite <- app_assoc.
Qed.

End DequeueFacts.

(** C1 (as amended). [Dequeue] serves the ready queues in strict priority
    order. When [queue:high] is non-empty and its head decodes as a task,
    [Dequeue] returns that task with the head as raw identity token, the
    head leaves [queue:high] and is appended to the right of
    [processing_queue]; the same holds for [queue:default] when
    [queue:high] is empty, and for [queue:low] when both are empty. When
    all three are empty [Dequeue] returns the empty signal and the broker
    is unchanged. *)
Theorem dequeue_strict_priority `{Codec} (st : Broker) :
  (∀ r rest t,
      queue_high st = r :: rest → json_unmarshal r = Some t →
      Dequeue st =
        (DqTask t r,
         mkBroker rest (queue_default st) (queue_low st) (processing_queue st ++ [r])
           (dead_letter_queue st) (completed_queue st) (delayed_queue st)
           (ratelimit st) (results st))) ∧
  (∀ r rest t,
      queue_high st = [] → queue_default st = r :: rest → json_unmarshal r = Some t →
      Dequeue st =
        (DqTask t r,
         mkBroker [] rest (queue_low st) (processing_queue st ++ [r])
           (dead_letter_queue st) (completed_queue st) (delayed_queue st)
           (ratelimit st) (results st))) ∧
  (∀ r rest t,
      queue_high st = [] → queue_default st = [] → queue_low st = r :: rest →
      json_unmarshal r = Some t →
      Dequeue st =
        (DqTask t r,
         mkBroker [] [] rest (processing_queue st ++ [r])
           (dead_letter_queue st) (completed_queue st) (delayed_queue st)
           (ratelimit st) (results st))) ∧
  (queue_high st = [] → queue_default st = [] → queue_low st = [] →
   Dequeue st = (DqNil, st)).
Proof.
  unfold Dequeue. repeat split.
  - intros r rest t Hh Ht.
    rewrite (dequeue_loop_cons_hit QHigh _ st r rest Hh), Ht.
    by destruct st; simpl in *; subst.
  - intros r rest t Hh Hd Ht.
    rewrite dequeue_loop_cons_miss by done.
    rewrite (dequeue_loop_cons_hit QDefault _ st r rest Hd), Ht.
    by destruct st; simpl in *; subst.
  - intros r rest t Hh Hd Hl Ht.
    rewrite !dequeue_loop_cons_miss by done.
    rewrite (dequeue_loop_cons_hit QLow _ st r rest Hl), Ht.
    by destruct st; simpl in *; subst.
  - intros Hh Hd Hl. by rewrite !dequeue_loop_cons_miss by done.
Qed.

Lemma dequeue_strict_priority_witness :
  let raw := Sample.render Sample.task1 in
  let st := set_list QDefault [raw] empty_broker in
  @Dequeue Sample.codec st =
    (DqTask Sample.task1 raw, set_list Processing [raw] empty_broker)
  ∧ @Dequeue Sample.codec empty_broker = (DqNil, empty_broker).
Proof.
  intros raw st.
  destruct (@dequeue_strict_priority Sample.codec st) as (_ & Hd & _ & _).
  destruct (@dequeue_strict_priority Sample.codec empty_broker) as (_ & _ & _ & He).
  split.
  - apply (Hd raw [] Sample.task1); reflexivity.
  - apply He; reflexivity.
Defined.

(** At a head entry that is not the JSON of a task [Dequeue] returns an
    error, although [queue:high] is non-empty. *)
Lemma dequeue_strict_priority_counterexample :
  let st := set_list QHigh ["not json"%string] empty_broker in
  queue_high st ≠ []
  ∧ @Dequeue Sample.codec st = (DqError, set_list Processing ["not json"%string] empty_broker)
  ∧ ¬ (∃ t raw, (@Dequeue Sample.codec st).1 = DqTask t raw).
Proof.
  intros st. split; [done|]. split; [reflexivity|].
  intros (t & raw & Ht). vm_compute in Ht. discriminate.
Qed.

(** C3. After any sequence of [Enqueue] and [Dequeue] operations from the
    empty broker, with pairwise distinct encoded tasks, every enqueued
    task occurs exactly once across the three ready queues, the in-flight
    list and the completed list taken together (so never in two of them),
    and nothing else occurs there. *)
Theorem exactly_once_membership `{Codec} (ops : list Op) :
  NoDup (enqueued ops) →
  let st := run_ops ops empty_broker in
  (∀ raw, raw ∈ enqueued ops → occurrences raw st = 1%nat)
  ∧ (∀ raw, raw ∉ enqueued ops → occurrences raw st = 0%nat)
  ∧ all_places st ≡ₚ enqueued ops.
Proof.
  intros Hnd st.
  assert (Hp : all_places st ≡ₚ enqueued ops).
  { unfold st. by rewrite run_ops_all_places. }
  repeat split; [| |done].
  - intros raw Hin. rewrite occurrences_all_places, (count_of_perm _ _ _ Hp).
    by apply count_of_nodup.
  - intros raw Hin. rewrite occurrences_all_places, (count_of_perm _ _ _ Hp).
    by apply count_of_not_in.
Qed.

Lemma exactly_once_membership_witness :
  let high := mkTask "high" "test" "null" 0 0 PriorityHigh in
  let low := mkTask "low" "test" "null" 0 0 PriorityLow in
  let ops := [OpEnqueue low; OpEnqueue high; OpDequeue] in
  NoDup (@enqueued Sample.codec ops)
  ∧ occurrences (Sample.render high) (@run_ops Sample.codec ops empty_broker) = 1%nat.
Proof.
  intros high low ops.
  assert (Hnd : NoDup (@enqueued Sample.codec ops)).
  { apply NoDup_cons. split; [|apply NoDup_singleton].
    intros Hin. apply list_elem_of_singleton in Hin. vm_compute in Hin. discriminate. }
  split; [exact Hnd|].
  apply (@exactly_once_membership Sample.codec ops Hnd).
  apply elem_of_cons. right. apply list_elem_of_singleton. reflexivity.
Defined.

(** ** Removal from the in-flight list *)

Lemma lrem_one v l : Redis.lrem 1 v l = Redis.remove_first 1 v l.
Proof. reflexivity. Qed.

(** [remove_first 1] deletes the first occurrence and nothing else. *)
Lemma remove_first_one_split v l1 l2 :
  v ∉ l1 → Redis.remove_first 1 v (l1 ++ v :: l2) = l1 ++ l2.
Proof.
  induction l1 as [|x l1 IH]; simpl; intros Hn.
  - rewrite String.eqb_refl. by destruct l2.
  - apply not_elem_of_cons in Hn as [Hne Hn].
    destruct (String.eqb_spec x v); [congruence|]. by rewrite IH.
Qed.

Lemma remove_first_absent n v l : v ∉ l → Redis.remove_first n v l = l.
Proof.
  revert n. induction l as [|x l IH]; intros n Hn; destruct n; simpl; try done.
  apply not_elem_of_cons in Hn as [Hne Hn].
  destruct (String.eqb_spec x v); [congruence|]. by rewrite IH.
Qed.

(** ** The completed list *)

Lemma ltrim_last_100 l : Redis.ltrim (-100) (-1) l = last_n 100 l.
Proof.
  unfold Redis.ltrim, last_n.
  change (-100 <? 0) with true. change (-1 <? 0) with true. cbv iota.
  set (len := length l).
  destruct (Z.ltb_spec (Z.of_nat len + -100) 0) as [Hs|Hs].
  - replace (len - 100)%nat with 0%nat by lia. change (Z.to_nat 0) with 0%nat.
    rewrite !drop_0.
    destruct (Z.ltb_spec (Z.of_nat len + -1) 0) as [H0|H0]; simpl.
    + destruct l; [done|]. simpl in len. lia.
    + destruct (Z.leb_spec (Z.of_nat len) 0) as [H1|H1]; [lia|].
      destruct (Z.leb_spec (Z.of_nat len) (Z.of_nat len + -1)) as [H2|H2]; [lia|].
      apply take_ge. fold len. lia.
  - destruct (Z.ltb_spec (Z.of_nat len + -1) (Z.of_nat len + -100)) as [H0|H0]; [lia|].
    destruct (Z.leb_spec (Z.of_nat len) (Z.of_nat len + -100)) as [H1|H1]; [lia|].
    destruct (Z.leb_spec (Z.of_nat len) (Z.of_nat len + -1)) as [H2|H2]; [lia|].
    simpl. replace (Z.to_nat (Z.of_nat len + -100)) with (len - 100)%nat by lia.
    apply take_ge. rewrite length_drop. fold len. lia.
Qed.

Lemma last_n_length {A} n (l : list A) : (length (last_n n l) <= n)%nat.
Proof. unfold last_n. rewrite length_drop. lia. Qed.

Lemma last_n_short {A} n (l : list A) : (length l <= n)%nat → last_n n l = l.
Proof. intros Hl. unfold last_n. by replace (length l - n)%nat with 0%nat by lia. Qed.

Lemma last_n_app_last_n {A} n (a b : list A) :
  last_n n (last_n n a ++ b) = last_n n (a ++ b).
Proof.
  unfold last_n. rewrite !length_app, length_drop.
  destruct (decide (length a <= n)%nat) as [Hle|Hgt].
  - replace (length a - n)%nat with 0%nat by lia.
    rewrite drop_0. f_equal. lia.
  - replace (length a - (length a - n) + length b - n)%nat with (length b) by lia.
    replace (length a + length b - n)%nat with ((length a - n) + length b)%nat by lia.
    rewrite <- drop_drop.
    f_equal. rewrite drop_app_le by lia. done.
Qed.

Lemma Complete_unfold raw st :
  Complete raw st =
    mkBroker (queue_high st) (queue_default st) (queue_low st)
      (Redis.remove_first 1 raw (processing_queue st))
      (dead_letter_queue st)
      (last_n 100 (completed_queue st ++ [raw]))
      (delayed_queue st) (ratelimit st) (results st).
Proof.
  unfold Complete, LTrim, RPush, LRem; simpl.
  by rewrite ltrim_last_100, lrem_one.
Qed.

Lemma complete_all_completed raws st :
  (length (completed_queue st) <= 100)%nat →
  completed_queue (complete_all raws st) = last_n 100 (completed_queue st ++ raws).
Proof.
  revert st. induction raws as [|raw raws IH]; intros st Hlen.
  - simpl. rewrite app_nil_r. symmetry. by apply last_n_short.
  - change (complete_all (raw :: raws) st) with (complete_all raws (Complete raw st)).
    rewrite IH; rewrite Complete_unfold; simpl; [|apply last_n_length].
    rewrite last_n_app_last_n. by rewrite <- app_assoc.
Qed.

Lemma complete_all_processing raws st :
  processing_queue (complete_all raws st)
  = fold_left (fun l raw => Redis.remove_first 1 raw l) raws (processing_queue st).
Proof.
  revert st. induction raws as [|raw raws IH]; intros st; [done|].
  change (complete_all (raw :: raws) st) with (complete_all raws (Complete raw st)).
  by rewrite IH, Complete_unfold.
Qed.

(** C7. From a broker whose completed list has at most 100 entries, any
    sequence of [Complete] calls leaves at most 100 entries in the
    completed list, and they are the trailing entries of the old list
    followed by the tokens completed, in order. Each [Complete] removes
    the first occurrence of its token from the in-flight list and appends
    the token to the completed list before trimming it to its last 100
    entries. *)
Theorem completed_list_bound (st : Broker) (raws : list string) :
  (length (completed_queue st) <= 100)%nat →
  let st' := complete_all raws st in
  (length (completed_queue st') <= 100)%nat
  ∧ completed_queue st' = last_n 100 (completed_queue st ++ raws)
  ∧ processing_queue st'
    = fold_left (fun l raw => Redis.remove_first 1 raw l) raws (processing_queue st)
  ∧ (∀ raw s,
       Complete raw s =
         mkBroker (queue_high s) (queue_default s) (queue_low s)
           (Redis.remove_first 1 raw (processing_queue s))
           (dead_letter_queue s)
           (last_n 100 (completed_queue s ++ [raw]))
           (delayed_queue s) (ratelimit s) (results s))
  ∧ (∀ raw l1 l2, raw ∉ l1 → Redis.remove_first 1 raw (l1 ++ raw :: l2) = l1 ++ l2).
Proof.
  intros Hlen st'. unfold st'.
  rewrite complete_all_completed by done.
  repeat split.
  - apply last_n_length.
  - apply complete_all_processing.
  - intros raw s. apply Complete_unfold.
  - intros raw l1 l2. apply remove_first_one_split.
Qed.

Lemma completed_list_bound_witness :
  let st := set_list Processing ["a"; "b"; "a"]%string empty_broker in
  (length (completed_queue st) <= 100)%nat
  ∧ completed_queue (complete_all ["a"; "b"]%string st) = ["a"; "b"]%string
  ∧ processing_queue (complete_all ["a"; "b"]%string st) = ["a"]%string.
Proof.
  intros st.
  assert (Hlen : (length (completed_queue st) <= 100)%nat) by (simpl; lia).
  destruct (completed_list_bound st ["a"; "b"]%string Hlen) as (_ & Hc & Hp & _).
  split; [exact Hlen|]. split.
  - rewrite Hc. reflexivity.
  - rewrite Hp. reflexivity.
Defined.

(** ** Machine arithmetic *)

Lemma wrap_small x : Int64.min_int <= x <= Int64.max_int → Int64.wrap x = x.
Proof.
  unfold Int64.wrap, Int64.min_int, Int64.max_int.
  change (2 ^ 63) with 9223372036854775808. change (2 ^ 64) with 18446744073709551616.
  intros Hx. rewrite Z.mod_small; lia.
Qed.

Lemma shl_nonneg x n : 0 <= n → ∃ s, Int64.shl x n = Some s.
Proof.
  intros Hn. unfold Int64.shl.
  destruct (Z.ltb_spec n 0); [lia|]. by eexists.
Qed.

Lemma backoff_nonneg n : 0 <= n → ∃ d, backoff n = Some d.
Proof.
  intros Hn. unfold backoff. destruct (shl_nonneg 1 n Hn) as [s ->]. by eexists.
Qed.

(** Up to a count of 36 the backoff is [2^n * 100ms] in nanoseconds:
    nothing wraps. *)
Lemma backoff_small n : 0 <= n <= 36 → backoff n = Some (2 ^ n * 100000000).
Proof.
  intros Hn. unfold backoff, Int64.shl, Int64.mul.
  destruct (Z.ltb_spec n 0); [lia|].
  rewrite Z.shiftl_1_l.
  assert (Hp : 1 <= 2 ^ n <= 68719476736).
  { split.
    - apply (Z.pow_le_mono_r 2 0 n); lia.
    - change 68719476736 with (2 ^ 36). apply Z.pow_le_mono_r; lia. }
  generalize dependent (2 ^ n). intros p Hp.
  assert (Hb : Int64.min_int = -9223372036854775808 ∧ Int64.max_int = 9223372036854775807)
    by (split; reflexivity).
  rewrite (wrap_small p) by lia.
  rewrite (wrap_small (p * 100)) by lia.
  rewrite (wrap_small (p * 100 * 1000000)) by lia.
  f_equal. lia.
Qed.

(** The conversion to a double is off by at most 512 on 64-bit integers. *)
Lemma float64_of_int_error n :
  - 2 ^ 63 < n < 2 ^ 63 → Z.abs (Float64.of_int n - n) <= 512.
Proof.
  intros Hn. unfold Float64.of_int.
  destruct (Z.ltb_spec (Z.abs n) (2 ^ 53)) as [Hs|Hs].
  { replace (n - n) with 0 by lia. simpl. lia. }
  assert (Ha : 0 < Z.abs n) by (change (2 ^ 53) with 9007199254740992 in Hs; lia).
  assert (Hl1 : 53 <= Z.log2 (Z.abs n)).
  { rewrite <- (Z.log2_pow2 53) by lia. by apply Z.log2_le_mono. }
  assert (Hl2 : Z.log2 (Z.abs n) < 63).
  { apply Z.log2_lt_pow2; [done|]. lia. }
  set (e := Z.log2 (Z.abs n) - 52).
  assert (He : 1 <= e <= 10) by (unfold e; lia).
  assert (HP : 2 ^ e = 2 * 2 ^ (e - 1)).
  { rewrite <- Z.pow_succ_r by lia. f_equal. lia. }
  assert (Hh : 1 <= 2 ^ (e - 1) <= 512).
  { split.
    - apply (Z.pow_le_mono_r 2 0 (e - 1)); lia.
    - change 512 with (2 ^ 9). apply Z.pow_le_mono_r; lia. }
  assert (Hdm := Z.div_mod (Z.abs n) (2 ^ e) ltac:(lia)).
  assert (Hr := Z.mod_pos_bound (Z.abs n) (2 ^ e) ltac:(lia)).
  set (q := Z.abs n / 2 ^ e) in *.
  set (r := Z.abs n mod 2 ^ e) in *.
  set (P := 2 ^ e) in *. set (h := 2 ^ (e - 1)) in *.
  assert (Hq1 : (q + 1) * P = P * q + P) by lia.
  assert (Hq0 : q * P = P * q) by lia.
  destruct n as [|n|n]; simpl Z.abs in *; simpl Z.sgn; [lia| |].
  - destruct (Z.ltb_spec r h); [|destruct (Z.ltb_spec h r); [|destruct (Z.even q)]]; lia.
  - destruct (Z.ltb_spec r h); [|destruct (Z.ltb_spec h r); [|destruct (Z.even q)]]; lia.
Qed.

(** ** The delay set *)

Lemma zinsert_find m s (z : Redis.zset) :
  (∀ x, x ∈ z → x.1 ≠ m) →
  List.find (fun x => String.eqb x.1 m) (Redis.zinsert (m, s) z) = Some (m, s).
Proof.
  induction z as [|x z IH]; intros Hz; simpl.
  - by rewrite String.eqb_refl.
  - destruct (Redis.entry_le (m, s) x); simpl.
    + by rewrite String.eqb_refl.
    + destruct (String.eqb_spec x.1 m) as [He|_].
      * exfalso. apply (Hz x); [left|done].
      * apply IH. intros y Hy. apply Hz. by right.
Qed.

Lemma zrem_absent m (z : Redis.zset) x : x ∈ Redis.zrem m z → x.1 ≠ m.
Proof.
  unfold Redis.zrem. intros Hin. apply list_elem_of_In, filter_In in Hin as [_ Hb].
  destruct (String.eqb_spec x.1 m); [discriminate|done].
Qed.

(** After [ZADD] the member carries the score given. *)
Lemma zscore_zadd s m z : Redis.zscore m (Redis.zadd s m z) = Some s.
Proof.
  unfold Redis.zscore, Redis.zadd.
  rewrite zinsert_find; [done|]. intros x. apply zrem_absent.
Qed.

(** ** Retry and Fail *)

Section RetryFacts.

Context `{Codec}.

Lemma Retry_unfold now task raw st d data :
  backoff (Int64.add (RetryCount task) 1) = Some d →
  json_marshal (with_retry_count task (Int64.add (RetryCount task) 1)) = Some data →
  Retry now task raw st =
    Ok (mkBroker (queue_high st) (queue_default st) (queue_low st)
          (Redis.remove_first 1 raw (processing_queue st))
          (dead_letter_queue st) (completed_queue st)
          (Redis.zadd (Float64.of_int (Int64.add now d)) data (delayed_queue st))
          (ratelimit st) (results st)).
Proof.
  intros Hd Hm. unfold Retry. simpl. rewrite Hd, Hm. reflexivity.
Qed.

Lemma increment_small k :
  0 <= k < Int64.max_int → Int64.add k 1 = k + 1.
Proof.
  intros Hk. unfold Int64.add. apply wrap_small.
  unfold Int64.min_int, Int64.max_int in *.
  change (2 ^ 63) with 9223372036854775808 in *. lia.
Qed.

(** The engine retries at any count: no count makes [Retry] refuse. *)
Lemma Retry_any_count now task raw st data :
  0 <= RetryCount task < Int64.max_int →
  json_marshal (with_retry_count task (RetryCount task + 1)) = Some data →
  ∃ score,
    Retry now task raw st =
      Ok (mkBroker (queue_high st) (queue_default st) (queue_low st)
            (Redis.remove_first 1 raw (processing_queue st))
            (dead_letter_queue st) (completed_queue st)
            (Redis.zadd score data (delayed_queue st))
            (ratelimit st) (results st))
    ∧ Redis.zscore data (Redis.zadd score data (delayed_queue st)) = Some score.
Proof.
  intros Hk Hm.
  destruct (backoff_nonneg (RetryCount task + 1) ltac:(lia)) as [d Hd].
  exists (Float64.of_int (Int64.add now d)). split; [|apply zscore_zadd].
  apply Retry_unfold; by rewrite increment_small.
Qed.

Lemma Fail_unfold task raw st data :
  json_marshal task = Some data →
  Fail task raw st =
    Ok (mkBroker (queue_high st) (queue_default st) (queue_low st)
          (Redis.remove_first 1 raw (processing_queue st))
          (dead_letter_queue st ++ [data]) (completed_queue st)
          (delayed_queue st) (ratelimit st) (results st)).
Proof. intros Hm. unfold Fail. by rewrite Hm. Qed.

End RetryFacts.

(** C2 (as amended). For a task with retry count [k], [0 <= k <= 35], at
    a clock reading [now] for which [now + 2^(k+1) * 100ms] fits 64 bits,
    [Retry] sets the retry count to [k + 1], adds the task re-serialized
    with that count to the delay set and removes the first occurrence of
    the identity token from the in-flight list. The score is the double
    nearest to [now + 2^(k+1) * 100ms] in nanoseconds: it differs from
    that instant by at most 512 ns. *)
Theorem retry_semantics `{Codec} (now : Z) (task : Task) (raw : string)
    (st : Broker) (data : string) :
  let k := RetryCount task in
  let due := now + 2 ^ (k + 1) * 100000000 in
  let score := Float64.of_int due in
  0 <= k <= 35 →
  0 <= now →
  due <= Int64.max_int →
  json_marshal (with_retry_count task (k + 1)) = Some data →
  Retry now task raw st =
    Ok (mkBroker (queue_high st) (queue_default st) (queue_low st)
          (Redis.remove_first 1 raw (processing_queue st))
          (dead_letter_queue st) (completed_queue st)
          (Redis.zadd score data (delayed_queue st))
          (ratelimit st) (results st))
  ∧ Redis.zscore data (Redis.zadd score data (delayed_queue st)) = Some score
  ∧ Z.abs ((score - now) - 2 ^ (k + 1) * 100000000) <= 512
  ∧ (∀ l1 l2, raw ∉ l1 → Redis.remove_first 1 raw (l1 ++ raw :: l2) = l1 ++ l2).
Proof.
  intros k due score Hk Hnow Hdue Hm.
  assert (Hmax : Int64.max_int = 9223372036854775807) by reflexivity.
  assert (Hmin : Int64.min_int = -9223372036854775808) by reflexivity.
  assert (Hpos : 0 < 2 ^ (k + 1)) by (apply Z.pow_pos_nonneg; lia).
  repeat split.
  - rewrite (Retry_unfold now task raw st (2 ^ (k + 1) * 100000000) data).
    + unfold Int64.add at 1. rewrite wrap_small; [done|]. fold due. lia.
    + fold k. rewrite increment_small by lia. apply backoff_small. lia.
    + fold k. by rewrite increment_small by lia.
  - apply zscore_zadd.
  - replace (score - now - 2 ^ (k + 1) * 100000000) with (Float64.of_int due - due)
      by (unfold score, due; lia).
    apply float64_of_int_error.
    change (2 ^ 63) with 9223372036854775808. lia.
  - intros l1 l2. apply remove_first_one_split.
Qed.

Lemma retry_semantics_witness :
  let now := 1700000000000000000 in
  let data := Sample.render (with_retry_count Sample.task1 1) in
  @Retry Sample.codec now Sample.task1 "raw" (set_list Processing ["raw"%string] empty_broker)
  = Ok (set_delayed [(data, 1700000000200000000)] empty_broker).
Proof.
  intros now data.
  destruct (@retry_semantics Sample.codec now Sample.task1 "raw"
              (set_list Processing ["raw"%string] empty_broker) data) as (Hr & _);
    [simpl; lia | lia | vm_compute; discriminate | reflexivity |].
  rewrite Hr. reflexivity.
Defined.

(** At retry count 36 the 64-bit backoff wraps around and the score lies
    before the call; at a clock reading that is no double the score is
    rounded. *)
Lemma retry_semantics_counterexample :
  (let now := 1700000000000000000 in
   let task := with_retry_count Sample.task1 36 in
   @Retry Sample.codec now task "raw" empty_broker
   = Ok (set_delayed [(Sample.render (with_retry_count task 37), -3002848726509551616)]
           empty_broker)
   ∧ -3002848726509551616 - now ≠ 2 ^ 37 * 100000000)
  ∧ (let now := 1700000000000000001 in
     @Retry Sample.codec now Sample.task1 "raw" empty_broker
     = Ok (set_delayed [(Sample.render (with_retry_count Sample.task1 1), 1700000000200000000)]
             empty_broker)
     ∧ 1700000000200000000 - now ≠ 2 ^ 1 * 100000000).
Proof.
  split; (split; [vm_compute; reflexivity | vm_compute; discriminate]).
Qed.

(** C8 (as amended). The client does not check that the identity token
    is still in the in-flight list. With an absent token the removal
    changes nothing and every operation goes on as with a present one,
    with no repair: [Ack] leaves the broker as it is and [Complete] still
    appends the token to the completed list, both without error. [Retry]
    panics when the incremented retry count is negative, returns an error
    with the broker untouched when the task does not serialize, and
    otherwise still adds the re-encoded task to the delay set and returns
    without error, so for every retry count from 0 to [MaxInt64 - 1].
    [Fail] returns an error with the broker untouched when the task does
    not serialize, and otherwise still appends the task to the dead-letter
    list and returns without error. *)
Theorem absent_token_not_detected `{Codec} (raw : string) (st : Broker) :
  raw ∉ processing_queue st →
  Ack raw st = st
  ∧ Complete raw st =
      mkBroker (queue_high st) (queue_default st) (queue_low st)
        (processing_queue st) (dead_letter_queue st)
        (last_n 100 (completed_queue st ++ [raw]))
        (delayed_queue st) (ratelimit st) (results st)
  ∧ (∀ now task data,
       0 <= RetryCount task < Int64.max_int →
       json_marshal (with_retry_count task (RetryCount task + 1)) = Some data →
       ∃ score,
         Retry now task raw st =
           Ok (mkBroker (queue_high st) (queue_default st) (queue_low st)
                 (processing_queue st) (dead_letter_queue st) (completed_queue st)
                 (Redis.zadd score data (delayed_queue st))
                 (ratelimit st) (results st))
         ∧ Redis.zscore data (Redis.zadd score data (delayed_queue st)) = Some score)
  ∧ (∀ task data,
       json_marshal task = Some data →
       Fail task raw st =
         Ok (mkBroker (queue_high st) (queue_default st) (queue_low st)
               (processing_queue st) (dead_letter_queue st ++ [data])
               (completed_queue st) (delayed_queue st) (ratelimit st) (results st)))
  ∧ (∀ now task,
       Retry now task raw st =
         match backoff (Int64.add (RetryCount task) 1) with
         | None => Panicked
         | Some d =>
             match json_marshal (with_retry_count task (Int64.add (RetryCount task) 1)) with
             | None => Failed
             | Some data =>
                 Ok (mkBroker (queue_high st) (queue_default st) (queue_low st)
                       (processing_queue st) (dead_letter_queue st) (completed_queue st)
                       (Redis.zadd (Float64.of_int (Int64.add now d)) data (delayed_queue st))
                       (ratelimit st) (results st))
             end
         end)
  ∧ (∀ n, backoff n = None ↔ n < 0)
  ∧ (∀ task,
       Fail task raw st =
         match json_marshal task with
         | None => Failed
         | Some data =>
             Ok (mkBroker (queue_high st) (queue_default st) (queue_low st)
                   (processing_queue st) (dead_letter_queue st ++ [data])
                   (completed_queue st) (delayed_queue st) (ratelimit st) (results st))
         end).
Proof.
  intros Habs.
  assert (Hrm : Redis.remove_first 1 raw (processing_queue st) = processing_queue st)
    by (by apply remove_first_absent).
  repeat apply conj.
  - unfold Ack, LRem; simpl. rewrite lrem_one, Hrm. by destruct st.
  - by rewrite Complete_unfold, Hrm.
  - intros now task data Hk Hm.
    destruct (Retry_any_count now task raw st data Hk Hm) as (score & Hr & Hs).
    exists score. by rewrite Hr, Hrm.
  - intros task data Hm. by rewrite (Fail_unfold task raw st data Hm), Hrm.
  - intros now task.
    destruct (backoff (Int64.add (RetryCount task) 1)) as [d|] eqn:Hd.
    + destruct (json_marshal (with_retry_count task (Int64.add (RetryCount task) 1)))
        as [data|] eqn:Hm.
      * by rewrite (Retry_unfold now task raw st d data Hd Hm), Hrm.
      * unfold Retry. simpl. by rewrite Hd, Hm.
    + unfold Retry. simpl. by rewrite Hd.
  - intros n. unfold backoff, Int64.shl.
    destruct (Z.ltb_spec n 0); split; intros Hn; (done || lia).
  - intros task. destruct (json_marshal task) as [data|] eqn:Hm.
    + by rewrite (Fail_unfold task raw st data Hm), Hrm.
    + unfold Fail. by rewrite Hm.
Qed.

Lemma absent_token_not_detected_witness :
  (("ghost"%string) ∉ processing_queue empty_broker)
  ∧ Complete "ghost" empty_broker = set_list Completed ["ghost"%string] empty_broker.
Proof.
  assert (Habs : "ghost"%string ∉ processing_queue empty_broker) by apply not_elem_of_nil.
  split; [exact Habs|].
  destruct (@absent_token_not_detected Sample.codec "ghost" empty_broker Habs)
    as (_ & Hc & _).
  rewrite Hc. reflexivity.
Defined.

(** With a token that is not in flight, [Complete] appends it to the
    completed list and [Retry] adds the re-encoded task to the delay
    set. *)
Lemma absent_token_counterexample :
  (("ghost"%string) ∉ processing_queue empty_broker)
  ∧ completed_queue (Complete "ghost" empty_broker) = ["ghost"%string]
  ∧ completed_queue (Complete "ghost" empty_broker) ≠ completed_queue empty_broker
  ∧ @Retry Sample.codec 1700000000000000000 Sample.task1 "ghost" empty_broker
    = Ok (set_delayed
            [(Sample.render (with_retry_count Sample.task1 1), 1700000000200000000)]
            empty_broker).
Proof.
  split; [apply not_elem_of_nil|].
  split; [reflexivity|]. split; [vm_compute; discriminate|]. vm_compute. reflexivity.
Qed.

(** ** The worker's retry policy *)

(** C6. When the handler of a dequeued task returns an error, the worker
    loop calls [Retry] if the task's retry count is below 3 and [Fail]
    otherwise. [Retry] then puts the task, re-encoded with its count
    incremented, into the delay set; [Fail] appends the serialized task to
    the dead-letter list; both remove the identity token from the
    in-flight list. The engine has no maximum of its own: [Retry] accepts
    a task at any retry count. *)
Theorem worker_retry_policy `{Codec} `{Handlers} (tAllow tEnd : Z)
    (st st1 st2 : Broker) (task : Task) (raw : string) :
  Dequeue st = (DqTask task raw, st1) →
  Allow tAllow (String.append "ratelimit:" (Type_ task)) 10 20 st1 = (true, st2) →
  dispatch task = true →
  worker_iteration tAllow tEnd st
  = (if RetryCount task <? 3
     then ignore_error (Retry tEnd task raw st2) st2
     else ignore_error (Fail task raw st2) st2)
  ∧ (∀ data,
       0 <= RetryCount task < 3 →
       json_marshal (with_retry_count task (RetryCount task + 1)) = Some data →
       ∃ score,
         worker_iteration tAllow tEnd st =
           Ok (mkBroker (queue_high st2) (queue_default st2) (queue_low st2)
                 (Redis.remove_first 1 raw (processing_queue st2))
                 (dead_letter_queue st2) (completed_queue st2)
                 (Redis.zadd score data (delayed_queue st2))
                 (ratelimit st2) (results st2)))
  ∧ (∀ data,
       3 <= RetryCount task →
       json_marshal task = Some data →
       worker_iteration tAllow tEnd st =
         Ok (mkBroker (queue_high st2) (queue_default st2) (queue_low st2)
               (Redis.remove_first 1 raw (processing_queue st2))
               (dead_letter_queue st2 ++ [data]) (completed_queue st2)
               (delayed_queue st2) (ratelimit st2) (results st2)))
  ∧ (∀ now t r s data,
       0 <= RetryCount t < Int64.max_int →
       json_marshal (with_retry_count t (RetryCount t + 1)) = Some data →
       ∃ score,
         Retry now t r s =
           Ok (mkBroker (queue_high s) (queue_default s) (queue_low s)
                 (Redis.remove_first 1 r (processing_queue s))
                 (dead_letter_queue s) (completed_queue s)
                 (Redis.zadd score data (delayed_queue s))
                 (ratelimit s) (results s))).
Proof.
  intros Hdq Hallow Herr.
  assert (Hcall : worker_iteration tAllow tEnd st
                  = (if RetryCount task <? 3
                     then ignore_error (Retry tEnd task raw st2) st2
                     else ignore_error (Fail task raw st2) st2)).
  { unfold worker_iteration. rewrite Hdq, Hallow. simpl.
    unfold settle. by rewrite Herr. }
  split; [exact Hcall|]. repeat split.
  - intros data Hk Hm. rewrite Hcall.
    destruct (Z.ltb_spec (RetryCount task) 3); [|lia].
    assert (Hk' : 0 <= RetryCount task < Int64.max_int)
      by (change Int64.max_int with 9223372036854775807; lia).
    destruct (Retry_any_count tEnd task raw st2 data Hk' Hm) as (score & Hr & _).
    exists score. by rewrite Hr.
  - intros data Hk Hm. rewrite Hcall.
    destruct (Z.ltb_spec (RetryCount task) 3); [lia|].
    by rewrite (Fail_unfold task raw st2 data Hm).
  - intros now t r s data Hk Hm.
    destruct (Retry_any_count now t r s data Hk Hm) as (score & Hr & _).
    by exists score.
Qed.

Lemma worker_retry_policy_witness :
  let task := with_retry_count Sample.task1 3 in
  let raw := Sample.render task in
  let st := set_list QDefault [raw] empty_broker in
  ∃ st',
    @worker_iteration Sample.codec Sample.failing 1700000000000000000 1700000001000000000 st
    = Ok st'
    ∧ dead_letter_queue st' = [raw]
    ∧ processing_queue st' = []
    ∧ delayed_queue st' = [].
Proof.
  intros task raw st.
  destruct (@Allow 1700000000000000000 (String.append "ratelimit:" (Type_ task)) 10 20
              (set_list Processing [raw] empty_broker)) as [allowed st2] eqn:Hallow.
  assert (Hal : allowed = true).
  { apply (f_equal fst) in Hallow. vm_compute in Hallow. congruence. }
  subst allowed.
  assert (Hst2 : processing_queue st2 = [raw] ∧ dead_letter_queue st2 = []
                 ∧ delayed_queue st2 = []).
  { apply (f_equal snd) in Hallow. simpl in Hallow. subst st2. repeat split. }
  destruct Hst2 as (Hp & Hdl & Hz).
  destruct (@worker_retry_policy Sample.codec Sample.failing
              1700000000000000000 1700000001000000000
              st (set_list Processing [raw] empty_broker) st2 task raw)
    as (_ & _ & Hfail & _); [reflexivity | exact Hallow | reflexivity |].
  eexists. split; [apply (Hfail raw); [simpl; lia | reflexivity]|].
  simpl. rewrite Hp, Hdl, Hz. repeat split.
Defined.

(** ** The delay scheduler *)

Lemma filter_split_perm (f : string * Z → bool) (z : Redis.zset) :
  map fst (List.filter f z) ++ map fst (List.filter (fun e => negb (f e)) z)
  ≡ₚ map fst z.
Proof.
  induction z as [|x z IH]; simpl; [done|].
  destruct (f x); simpl.
  - by rewrite IH.
  - rewrite <- Permutation_middle. by rewrite IH.
Qed.

Lemma filter_sorted (f : string * Z → bool) (z : Redis.zset) :
  StronglySorted score_le z → StronglySorted score_le (List.filter f z).
Proof.
  induction 1 as [|x z Hs IH Hall]; simpl; [constructor|].
  destruct (f x); [|done]. constructor; [done|].
  apply List.Forall_forall. intros y Hy. apply filter_In in Hy as [Hy _].
  by apply (proj1 (List.Forall_forall _ _) Hall).
Qed.

Lemma filter_members_nodup (f : string * Z → bool) (z : Redis.zset) :
  NoDup (map fst z) → NoDup (map fst (List.filter f z)).
Proof.
  intros Hnd. rewrite <- (filter_split_perm f z) in Hnd.
  by apply NoDup_app in Hnd as (Hnd & _).
Qed.

Lemma filter_wf (f : string * Z → bool) (z : Redis.zset) :
  zset_wf z → zset_wf (List.filter f z).
Proof.
  intros [Hnd Hs]. split; [by apply filter_members_nodup|by apply filter_sorted].
Qed.

Lemma zinsert_perm e (z : Redis.zset) : Redis.zinsert e z ≡ₚ e :: z.
Proof.
  induction z as [|x z IH]; simpl; [done|].
  destruct (Redis.entry_le e x); [done|]. rewrite IH. apply perm_swap.
Qed.

Lemma zinsert_sorted e (z : Redis.zset) :
  StronglySorted score_le z → StronglySorted score_le (Redis.zinsert e z).
Proof.
  induction 1 as [|x z Hs IH Hall]; simpl.
  - repeat constructor.
  - destruct (Redis.entry_le e x) eqn:Hle.
    + assert (Hex : e.2 <= x.2).
      { unfold Redis.entry_le in Hle.
        apply orb_true_iff in Hle as [Hlt|Heq]; [lia|].
        apply andb_true_iff in Heq as [Heq _]. lia. }
      constructor; [by constructor|].
      constructor; [done|].
      eapply Forall_impl; [exact Hall|]. unfold score_le. simpl. intros y Hy. lia.
    + assert (Hxe : x.2 <= e.2).
      { unfold Redis.entry_le in Hle.
        apply orb_false_iff in Hle as [Hlt _]. lia. }
      constructor; [done|].
      rewrite zinsert_perm. by constructor.
Qed.

(** [ZADD] keeps a sorted set well formed, so that every delay set the
    client builds from the empty one is. *)
Lemma zadd_wf s m z : zset_wf z → zset_wf (Redis.zadd s m z).
Proof.
  intros Hwf. apply (filter_wf (fun x => negb (String.eqb x.1 m))) in Hwf as [Hnd Hs].
  unfold Redis.zadd. split.
  - rewrite zinsert_perm. simpl. apply NoDup_cons. split; [|exact Hnd].
    intros Hin. apply list_elem_of_fmap in Hin as (x & Hx & Hin).
    by apply zrem_absent in Hin.
  - by apply zinsert_sorted.
Qed.

Lemma rpush_all tasks st :
  fold_left (fun s task => RPush QDefault task s) tasks st
  = set_list QDefault (queue_default st ++ tasks) st.
Proof.
  revert st. induction tasks as [|t tasks IH]; intros st; simpl.
  - rewrite app_nil_r. by destruct st.
  - rewrite IH. destruct st; simpl. unfold Redis.rpush. by rewrite <- app_assoc.
Qed.

Lemma nothing_due_filter (f : string * Z → bool) (z : Redis.zset) :
  List.filter f z = [] → List.filter (fun e => negb (f e)) z = z.
Proof.
  induction z as [|x z IH]; simpl; [done|].
  destruct (f x); [discriminate|]. intros Hz. simpl. by rewrite IH.
Qed.

Lemma promote_script_unfold now st :
  promote_script now st =
    (Z.of_nat (length (due_entries now (delayed_queue st))),
     mkBroker (queue_high st)
       (queue_default st ++ map fst (due_entries now (delayed_queue st)))
       (queue_low st) (processing_queue st) (dead_letter_queue st)
       (completed_queue st)
       (List.filter (fun e => negb (e.2 <=? now)) (delayed_queue st))
       (ratelimit st) (results st)).
Proof.
  unfold promote_script, Redis.zrangebyscore_upto, Redis.zremrangebyscore_upto.
  fold (due_entries now (delayed_queue st)).
  rewrite length_map. f_equal.
  destruct (due_entries now (delayed_queue st)) as [|e es] eqn:Hdue.
  - simpl. rewrite app_nil_r.
    unfold due_entries in Hdue. rewrite (nothing_due_filter _ _ Hdue). by destruct st.
  - change (0 <? Z.of_nat (length (map fst (e :: es)))) with true. cbv iota.
    rewrite rpush_all. by destruct st.
Qed.

Lemma promote_all_spec nows st :
  ∃ promoted,
    queue_default (promote_all nows st).2 = queue_default st ++ promoted
    ∧ promoted ++ map fst (delayed_queue (promote_all nows st).2)
      ≡ₚ map fst (delayed_queue st)
    ∧ total (promote_all nows st).1 = Z.of_nat (length promoted).
Proof.
  revert st. induction nows as [|now nows IH]; intros st.
  - exists []. simpl. by rewrite app_nil_r.
  - change (promote_all (now :: nows) st)
      with (let '(n, st1) := promote_script now st in
            let '(ns, st2) := promote_all nows st1 in (n :: ns, st2)).
    rewrite promote_script_unfold.
    match goal with |- context [promote_all nows ?s] => set (st1 := s) end.
    destruct (IH st1) as (p & Hq & Hperm & Hn).
    destruct (promote_all nows st1) as [ns st2]. simpl in *.
    exists (map fst (due_entries now (delayed_queue st)) ++ p).
    split; [by rewrite Hq, app_assoc|]. split.
    + rewrite <- app_assoc, Hperm. apply filter_split_perm.
    + rewrite Hn, length_app, length_map. lia.
Qed.

Lemma elem_of_bool_filter (f : string * Z → bool) (z : Redis.zset) e :
  e ∈ List.filter f z ↔ e ∈ z ∧ f e = true.
Proof. rewrite !list_elem_of_In. apply filter_In. Qed.

Lemma due_then_none (f : string * Z → bool) (z : Redis.zset) :
  List.filter f (List.filter (fun e => negb (f e)) z) = [].
Proof.
  induction z as [|x z IH]; simpl; [done|].
  destruct (f x) eqn:Hf; simpl; [done|]. by rewrite Hf.
Qed.

(** The promotion script. One run at [now], the script's own argument,
    removes from the delay set exactly the members whose score is at most
    [now] and leaves the others as they are; it appends the removed
    members, in ascending score order, to the right of [queue:default]
    whatever their priority field says, and returns their number. A second
    run at the same argument promotes nothing, and over any series of runs
    the promoted entries are pairwise distinct members of the original
    delay set. *)
Theorem scheduler_promotion (now : Z) (st : Broker) :
  zset_wf (delayed_queue st) →
  let due := due_entries now (delayed_queue st) in
  let st' := (promote_script now st).2 in
  promote_script now st =
    (Z.of_nat (length due),
     mkBroker (queue_high st) (queue_default st ++ map fst due) (queue_low st)
       (processing_queue st) (dead_letter_queue st) (completed_queue st)
       (List.filter (fun e => negb (e.2 <=? now)) (delayed_queue st))
       (ratelimit st) (results st))
  ∧ (∀ e, e ∈ delayed_queue st' ↔ e ∈ delayed_queue st ∧ now < e.2)
  ∧ (∀ e, e ∈ due ↔ e ∈ delayed_queue st ∧ e.2 <= now)
  ∧ StronglySorted score_le due
  ∧ NoDup (map fst due)
  ∧ zset_wf (delayed_queue st')
  ∧ promote_script now st' = (0, st')
  ∧ (∀ nows, ∃ promoted,
       queue_default (promote_all nows st).2 = queue_default st ++ promoted
       ∧ NoDup promoted
       ∧ promoted ++ map fst (delayed_queue (promote_all nows st).2)
         ≡ₚ map fst (delayed_queue st)
       ∧ total (promote_all nows st).1 = Z.of_nat (length promoted)).
Proof.
  intros Hwf due st'. unfold st'. rewrite promote_script_unfold. fold due.
  split; [done|]. simpl. repeat apply conj.
  - intros e. rewrite elem_of_bool_filter.
    destruct (Z.leb_spec e.2 now); simpl; split; intros [Hin Hc]; (split; [done|]);
      first [lia | done].
  - intros e. unfold due, due_entries. rewrite elem_of_bool_filter.
    destruct (Z.leb_spec e.2 now); simpl; split; intros [Hin Hc]; (split; [done|]);
      first [lia | done].
  - apply filter_sorted, Hwf.
  - apply filter_members_nodup, Hwf.
  - apply filter_members_nodup, Hwf.
  - apply filter_sorted, Hwf.
  - rewrite promote_script_unfold. simpl. unfold due_entries.
    rewrite (due_then_none (fun e => e.2 <=? now)). simpl.
    rewrite app_nil_r.
    by rewrite (nothing_due_filter _ _ (due_then_none (fun e => e.2 <=? now) _)).
  - intros nows. destruct (promote_all_spec nows st) as (p & Hq & Hperm & Hn).
    exists p. repeat split; try done.
    destruct Hwf as [Hnd _]. rewrite <- Hperm in Hnd.
    by apply NoDup_app in Hnd as (Hnd & _).
Qed.

Lemma scheduler_promotion_witness :
  let z := [("a", 5); ("b", 10); ("c", 20)]%string in
  let st := set_list QDefault ["x"%string] (set_delayed z empty_broker) in
  zset_wf z
  ∧ promote_script 10 st
    = (2, set_list QDefault ["x"; "a"; "b"]%string (set_delayed [("c"%string, 20)] empty_broker)).
Proof.
  intros z st.
  assert (Hwf : zset_wf z).
  { split.
    - repeat (apply NoDup_cons; split;
              [intros Hin; repeat (apply elem_of_cons in Hin as [Hin|Hin]; [discriminate|]);
               by apply elem_of_nil in Hin|]).
      apply NoDup_nil_2.
    - repeat (constructor; [|repeat (constructor; [unfold score_le; simpl; lia|]); constructor]).
      constructor. }
  split; [exact Hwf|].
  destruct (scheduler_promotion 10 st Hwf) as (Hrun & _).
  rewrite Hrun. reflexivity.
Defined.

Lemma tick_all_promote_all nows st :
  tick_all nows st = (promote_all (map Float64.of_int nows) st).2.
Proof.
  revert st. induction nows as [|n nows IH]; intros st; [done|].
  change (tick_all (n :: nows) st) with (tick_all nows (scheduler_tick n st)).
  change (promote_all (map Float64.of_int (n :: nows)) st)
    with (let '(k, st1) := promote_script (Float64.of_int n) st in
          let '(ks, st2) := promote_all (map Float64.of_int nows) st1 in (k :: ks, st2)).
  rewrite IH. unfold scheduler_tick.
  destruct (promote_script (Float64.of_int n) st) as [k st1]. simpl.
  by destruct (promote_all (map Float64.of_int nows) st1).
Qed.

(** C4 (as amended). One scheduler tick at clock reading [nowNs], a count of
    nanoseconds that fits a signed 64-bit integer, runs the promotion
    script once with [float64(nowNs)], which is [nowNs] itself below
    [2^53] and within 512 ns of it otherwise. The tick removes from the
    delay set exactly the members whose score is at most [float64(nowNs)]
    and leaves the others as they are: a member whose score is at most
    [nowNs - 512] is promoted, one whose score is above [nowNs + 512]
    stays. The removed members are appended, in ascending score order, to
    the right of [queue:default] whatever their priority field says and
    nothing else of the broker changes; the script returns their number,
    which the tick discards. No member is promoted twice: a second tick at
    the same reading changes nothing, and over any series of ticks, of one
    replica or of several, the promoted entries are pairwise distinct
    members of the original delay set. *)
Theorem scheduler_tick_promotion (nowNs : Z) (st : Broker) :
  zset_wf (delayed_queue st) →
  - 2 ^ 63 < nowNs < 2 ^ 63 →
  let now := Float64.of_int nowNs in
  let due := due_entries now (delayed_queue st) in
  let st' := scheduler_tick nowNs st in
  st' = mkBroker (queue_high st) (queue_default st ++ map fst due) (queue_low st)
          (processing_queue st) (dead_letter_queue st) (completed_queue st)
          (List.filter (fun e => negb (e.2 <=? now)) (delayed_queue st))
          (ratelimit st) (results st)
  ∧ promote_script now st = (Z.of_nat (length due), st')
  ∧ Z.abs (now - nowNs) <= 512
  ∧ (Z.abs nowNs < 2 ^ 53 → now = nowNs)
  ∧ (∀ e, e ∈ delayed_queue st' ↔ e ∈ delayed_queue st ∧ now < e.2)
  ∧ (∀ e, e ∈ due ↔ e ∈ delayed_queue st ∧ e.2 <= now)
  ∧ (∀ e, e ∈ delayed_queue st → e.2 <= nowNs - 512 →
       e ∈ due ∧ e.1 ∈ queue_default st' ∧ e ∉ delayed_queue st')
  ∧ (∀ e, e ∈ delayed_queue st → nowNs + 512 < e.2 →
       e ∈ delayed_queue st' ∧ e ∉ due)
  ∧ StronglySorted score_le due
  ∧ NoDup (map fst due)
  ∧ zset_wf (delayed_queue st')
  ∧ scheduler_tick nowNs st' = st'
  ∧ (∀ nows, ∃ promoted,
       queue_default (tick_all nows st) = queue_default st ++ promoted
       ∧ NoDup promoted
       ∧ promoted ++ map fst (delayed_queue (tick_all nows st))
         ≡ₚ map fst (delayed_queue st)).
Proof.
  intros Hwf Hrange now due st'.
  pose proof (float64_of_int_error nowNs Hrange) as Herr. fold now in Herr.
  assert (Hst : st' = mkBroker (queue_high st) (queue_default st ++ map fst due)
                        (queue_low st) (processing_queue st) (dead_letter_queue st)
                        (completed_queue st)
                        (List.filter (fun e => negb (e.2 <=? now)) (delayed_queue st))
                        (ratelimit st) (results st)).
  { unfold st', scheduler_tick. fold now. by rewrite promote_script_unfold. }
  assert (Hstay : ∀ e, e ∈ delayed_queue st' ↔ e ∈ delayed_queue st ∧ now < e.2).
  { intros e. rewrite Hst. simpl. rewrite elem_of_bool_filter.
    destruct (Z.leb_spec e.2 now); simpl; split; intros [Hin Hc]; (split; [done|]);
      first [lia | done]. }
  assert (Hdue : ∀ e, e ∈ due ↔ e ∈ delayed_queue st ∧ e.2 <= now).
  { intros e. unfold due, due_entries. rewrite elem_of_bool_filter.
    destruct (Z.leb_spec e.2 now); simpl; split; intros [Hin Hc]; (split; [done|]);
      first [lia | done]. }
  split; [exact Hst|]. split.
  { rewrite promote_script_unfold. fold due. by rewrite Hst. }
  split; [exact Herr|]. split.
  { intros Hsmall. unfold now, Float64.of_int.
    destruct (Z.ltb_spec (Z.abs nowNs) (2 ^ 53)); [done|lia]. }
  split; [exact Hstay|]. split; [exact Hdue|]. split.
  { intros e Hin Hle. assert (He : e ∈ due) by (apply Hdue; split; [done|lia]).
    split; [exact He|]. split.
    - rewrite Hst. simpl. apply elem_of_app. right. by apply list_elem_of_fmap_2.
    - intros Hs. apply Hstay in Hs. lia. }
  split.
  { intros e Hin Hgt. split.
    - apply Hstay. split; [done|lia].
    - intros Hd. apply Hdue in Hd. lia. }
  split; [apply filter_sorted, Hwf|].
  split; [apply filter_members_nodup, Hwf|].
  split.
  { rewrite Hst. simpl. split; [apply filter_members_nodup, Hwf|apply filter_sorted, Hwf]. }
  split.
  { unfold scheduler_tick at 1. fold now. rewrite promote_script_unfold. rewrite Hst. simpl.
    unfold due_entries.
    rewrite (due_then_none (fun e => e.2 <=? now)). simpl. rewrite app_nil_r.
    by rewrite (nothing_due_filter _ _ (due_then_none (fun e => e.2 <=? now) _)). }
  intros nows. rewrite tick_all_promote_all.
  destruct (promote_all_spec (map Float64.of_int nows) st) as (p & Hq & Hperm & _).
  exists p. split; [exact Hq|]. split; [|exact Hperm].
  destruct Hwf as [Hnd _]. rewrite <- Hperm in Hnd.
  by apply NoDup_app in Hnd as (Hnd & _).
Qed.

Lemma scheduler_tick_promotion_witness :
  let z := [("a", 5); ("b", 10); ("c", 20)]%string in
  let st := set_list QDefault ["x"%string] (set_delayed z empty_broker) in
  zset_wf z
  ∧ - 2 ^ 63 < 10 < 2 ^ 63
  ∧ scheduler_tick 10 st
    = set_list QDefault ["x"; "a"; "b"]%string (set_delayed [("c"%string, 20)] empty_broker)
  ∧ tick_all [10; 10] st = scheduler_tick 10 st.
Proof.
  intros z st.
  assert (Hwf : zset_wf z).
  { split.
    - repeat (apply NoDup_cons; split;
              [intros Hin; repeat (apply elem_of_cons in Hin as [Hin|Hin]; [discriminate|]);
               by apply elem_of_nil in Hin|]).
      apply NoDup_nil_2.
    - repeat (constructor; [|repeat (constructor; [unfold score_le; simpl; lia|]); constructor]).
      constructor. }
  assert (Hrange : - 2 ^ 63 < 10 < 2 ^ 63) by (split; reflexivity).
  split; [exact Hwf|]. split; [exact Hrange|].
  destruct (scheduler_tick_promotion 10 st Hwf Hrange) as (Hrun & _ & _ & _ & _ & _ & _ & _ & _ & _ & _ & Hagain & _).
  split.
  - rewrite Hrun. reflexivity.
  - change (tick_all [10; 10] st) with (scheduler_tick 10 (scheduler_tick 10 st)).
    exact Hagain.
Defined.

(** A tick at 1700000000000000200 ns promotes a member whose score,
    1700000000000000256, a value a retry can write, is later than the
    tick: the tick hands the script [float64] of its clock reading, which
    is 1700000000000000256. *)
Lemma scheduler_tick_counterexample :
  let st := set_delayed [("m"%string, 1700000000000000256)] empty_broker in
  1700000000000000200 < 1700000000000000256
  ∧ Float64.of_int 1700000000000000256 = 1700000000000000256
  ∧ Float64.of_int 1700000000000000200 = 1700000000000000256
  ∧ delayed_queue st = [("m"%string, 1700000000000000256)]
  ∧ queue_default st = []
  ∧ queue_default (scheduler_tick 1700000000000000200 st) = ["m"%string]
  ∧ delayed_queue (scheduler_tick 1700000000000000200 st) = [].
Proof. intros st. repeat split; vm_compute; reflexivity. Qed.

(** ** The rate limiter *)









(** ** The HTTP surface *)

Lemma status_header_set k v w : status (header_set k v w) = status w.
Proof. done. Qed.

Lemma status_code_error msg code w :
  status w = None → status_code (http_Error msg code w) = code.
Proof. intros Hw. unfold http_Error, status_code, Write, WriteHeader; simpl. by rewrite Hw. Qed.

Lemma status_code_write data w :
  status w = None → status_code (Write data w) = StatusOK.
Proof. intros Hw. unfold status_code, Write, WriteHeader; simpl. by rewrite Hw. Qed.

Section RouterFacts.

Context `{Codec} `{Wire}.
Variable uuid : string.
Variable now : Z.

(** Each handler answers a fresh response with one of 200, 400, 404, 405
    and 500. *)
Lemma handler_status path handler r w s :
  endpoint uuid now path = Some handler →
  status w = None →
  status_code (handler r (w, s)).1 ∈ [StatusOK; StatusBadRequest; StatusNotFound;
                                       StatusMethodNotAllowed; StatusInternalServerError].
Proof.
  intros He Hw. unfold endpoint in He.
  repeat case_match; simplify_eq;
    unfold enqueueHandler, resultHandler, scheduleHandler, statsHandler, tasksHandler;
    repeat case_match; simpl;
    rewrite ?status_code_error, ?status_code_write by done;
    repeat first [ by apply list_elem_of_here | apply list_elem_of_further ].
Qed.

Lemma enableCORS_preflight next r w s :
  Method r = "OPTIONS"%string →
  status w = None →
  status_code (enableCORS next r (w, s)).1 = StatusOK
  ∧ (enableCORS next r (w, s)).2 = s
  ∧ ∀ next', enableCORS next' r (w, s) = enableCORS next r (w, s).
Proof.
  intros Hm Hw. unfold enableCORS. rewrite Hm. simpl.
  repeat split. unfold status_code, WriteHeader; simpl. by rewrite Hw.
Qed.

Lemma auth_rejects next apiKey r w s :
  apiKey ≠ EmptyString →
  Method r ≠ "OPTIONS"%string →
  header_get "X-API-Key" r ≠ apiKey →
  status w = None →
  status_code (enableCORS (authMiddleware next apiKey) r (w, s)).1 = StatusUnauthorized
  ∧ (enableCORS (authMiddleware next apiKey) r (w, s)).2 = s
  ∧ ∀ next',
      enableCORS (authMiddleware next' apiKey) r (w, s)
      = enableCORS (authMiddleware next apiKey) r (w, s).
Proof.
  intros Hk Hm Hh Hw. unfold enableCORS, authMiddleware.
  apply String.eqb_neq in Hk, Hm, Hh. rewrite Hk, Hm, Hh. simpl.
  repeat split. by apply status_code_error.
Qed.

Lemma auth_disabled next r ws : authMiddleware next EmptyString r ws = next r ws.
Proof. by destruct ws. Qed.

Lemma auth_accepts next apiKey r ws :
  header_get "X-API-Key" r = apiKey → authMiddleware next apiKey r ws = next r ws.
Proof.
  intros Hh. destruct ws as [w s]. unfold authMiddleware.
  destruct (String.eqb apiKey EmptyString); [done|].
  by rewrite Hh, String.eqb_refl.
Qed.

End RouterFacts.

Lemma header_get_with_header name k value r :
  CanonicalMIMEHeaderKey name = CanonicalMIMEHeaderKey k →
  header_get k (with_header name value r) = value.
Proof.
  intros Hn. unfold header_get, with_header. simpl. by rewrite Hn, lookup_insert_eq.
Qed.

Lemma header_get_missing k r :
  Header r !! CanonicalMIMEHeaderKey k = None → header_get k r = EmptyString.
Proof. intros Hm. unfold header_get. by rewrite Hm. Qed.

(** C9. With a non-empty configured key, a request to an endpoint whose
    [X-API-Key] header is missing or different is answered 401, the
    server state is untouched and the answer does not depend on the
    handler, which is not called; this holds for every method but
    [OPTIONS]. The header is found as [r.Header.Get] finds it, whatever
    the case of the letters of its name: a request that carries the
    configured key under any spelling of the name reaches the handler. An
    [OPTIONS] request to an endpoint is answered 200 ahead of the key
    check, whatever the key. With an empty configured key no request is
    answered 401, and a [POST /enqueue] whose empty body does not decode
    is answered 400. *)
Theorem api_key_authentication `{Codec} `{Wire} (uuid : string) (now : Z)
    (apiKey : string) (r : Request) (s : Server) :
  (∀ handler,
     endpoint uuid now (Path r) = Some handler →
     apiKey ≠ EmptyString →
     Method r ≠ "OPTIONS"%string →
     header_get "X-API-Key" r ≠ apiKey →
     status_code (setupRouter uuid now apiKey r (new_response, s)).1 = StatusUnauthorized
     ∧ (setupRouter uuid now apiKey r (new_response, s)).2 = s
     ∧ ∀ next,
         enableCORS (authMiddleware next apiKey) r (new_response, s)
         = setupRouter uuid now apiKey r (new_response, s))
  ∧ (∀ handler,
       endpoint uuid now (Path r) = Some handler →
       Method r = "OPTIONS"%string →
       status_code (setupRouter uuid now apiKey r (new_response, s)).1 = StatusOK
       ∧ (setupRouter uuid now apiKey r (new_response, s)).2 = s
       ∧ ∀ next key,
           enableCORS (authMiddleware next key) r (new_response, s)
           = setupRouter uuid now apiKey r (new_response, s))
  ∧ (apiKey = EmptyString →
     status_code (setupRouter uuid now apiKey r (new_response, s)).1 ≠ StatusUnauthorized)
  ∧ (apiKey = EmptyString →
     Path r = "/enqueue"%string → Method r = "POST"%string →
     Body r = EmptyString → decode_body EmptyString = None →
     status_code (setupRouter uuid now apiKey r (new_response, s)).1 = StatusBadRequest
     ∧ (setupRouter uuid now apiKey r (new_response, s)).2 = s)
  ∧ (∀ handler,
       endpoint uuid now (Path r) = Some handler →
       apiKey ≠ EmptyString →
       Method r ≠ "OPTIONS"%string →
       Header r !! "X-Api-Key"%string = None →
       status_code (setupRouter uuid now apiKey r (new_response, s)).1 = StatusUnauthorized
       ∧ (setupRouter uuid now apiKey r (new_response, s)).2 = s)
  ∧ (∀ handler name value,
       endpoint uuid now (Path r) = Some handler →
       apiKey ≠ EmptyString →
       Method r ≠ "OPTIONS"%string →
       CanonicalMIMEHeaderKey name = "X-Api-Key"%string →
       (value ≠ apiKey →
        status_code (setupRouter uuid now apiKey (with_header name value r)
                       (new_response, s)).1 = StatusUnauthorized
        ∧ (setupRouter uuid now apiKey (with_header name value r) (new_response, s)).2 = s)
       ∧ (value = apiKey →
          setupRouter uuid now apiKey (with_header name value r) (new_response, s)
          = handler (with_header name value r)
              (header_set "Access-Control-Allow-Headers"
                 "Accept, Content-Type, Content-Length, Accept-Encoding, X-CSRF-Token, Authorization, X-API-Key"
                 (header_set "Access-Control-Allow-Methods" "POST, GET, OPTIONS, PUT, DELETE"
                    (header_set "Access-Control-Allow-Origin" "*" new_response)), s)))
  ∧ CanonicalMIMEHeaderKey "X-API-Key" = "X-Api-Key"%string
  ∧ CanonicalMIMEHeaderKey "x-api-key" = "X-Api-Key"%string
  ∧ CanonicalMIMEHeaderKey "X-Api-Key" = "X-Api-Key"%string.
Proof.
  assert (Hreject : ∀ (q : Request) handler,
             endpoint uuid now (Path q) = Some handler →
             apiKey ≠ EmptyString →
             Method q ≠ "OPTIONS"%string →
             header_get "X-API-Key" q ≠ apiKey →
             status_code (setupRouter uuid now apiKey q (new_response, s)).1
             = StatusUnauthorized
             ∧ (setupRouter uuid now apiKey q (new_response, s)).2 = s
             ∧ ∀ next,
                 enableCORS (authMiddleware next apiKey) q (new_response, s)
                 = setupRouter uuid now apiKey q (new_response, s)).
  { intros q handler He Hk Hm Hh. unfold setupRouter. rewrite He.
    destruct (auth_rejects handler apiKey q new_response s Hk Hm Hh eq_refl)
      as (Hst & Hs & Hnext).
    repeat split; [exact Hst|exact Hs|]. intros next. apply Hnext. }
  repeat apply conj; try reflexivity.
  - intros handler. apply Hreject.
  - intros handler He Hm. unfold setupRouter. rewrite He.
    destruct (enableCORS_preflight (authMiddleware handler apiKey) r new_response s
                Hm eq_refl) as (Hst & Hs & Hnext).
    repeat split; [exact Hst|exact Hs|]. intros next key. apply Hnext.
  - intros ->. unfold setupRouter.
    destruct (endpoint uuid now (Path r)) as [handler|] eqn:He.
    + unfold enableCORS.
      destruct (String.eqb (Method r) "OPTIONS"); [done|].
      rewrite auth_disabled.
      pose proof (handler_status uuid now (Path r) handler r
        (header_set "Access-Control-Allow-Headers"
           "Accept, Content-Type, Content-Length, Accept-Encoding, X-CSRF-Token, Authorization, X-API-Key"
           (header_set "Access-Control-Allow-Methods" "POST, GET, OPTIONS, PUT, DELETE"
              (header_set "Access-Control-Allow-Origin" "*" new_response))) s He eq_refl) as Hin.
      intros Heq. rewrite Heq in Hin.
      repeat (apply elem_of_cons in Hin as [Hin|Hin]; [discriminate|]).
      by apply elem_of_nil in Hin.
    + done.
  - intros -> Hp Hm Hb Hd.
    unfold setupRouter, endpoint. rewrite Hp. simpl.
    rewrite !Hm. simpl. rewrite Hb, Hd. simpl. done.
  - intros handler He Hk Hm Hmiss.
    destruct (Hreject r handler He Hk Hm) as (Hst & Hs & _); [|done].
    rewrite (header_get_missing "X-API-Key" r Hmiss). congruence.
  - intros handler name value He Hk Hm Hname.
    assert (Hget : header_get "X-API-Key" (with_header name value r) = value).
    { apply header_get_with_header. by rewrite Hname. }
    split.
    + intros Hne.
      destruct (Hreject (with_header name value r) handler He Hk Hm) as (Hst & Hs & _);
        [by rewrite Hget|done].
    + intros Heq. unfold setupRouter. change (Path (with_header name value r)) with (Path r).
      rewrite He. unfold enableCORS.
      change (Method (with_header name value r)) with (Method r).
      apply String.eqb_neq in Hm. rewrite Hm.
      apply auth_accepts. by rewrite Hget.
Qed.

Lemma api_key_authentication_witness :
  let r := mkRequest "POST" "/enqueue" ∅ ∅ EmptyString in
  let s := mkServer empty_broker [] in
  status_code (@setupRouter Sample.codec Sample.wire "id-1" 0 "secret-key" r (new_response, s)).1
  = StatusUnauthorized
  ∧ status_code (@setupRouter Sample.codec Sample.wire "id-1" 0 EmptyString r (new_response, s)).1
    = StatusBadRequest
  ∧ status_code (@setupRouter Sample.codec Sample.wire "id-1" 0 "secret-key"
                   (with_header "x-api-key" "secret-key" r) (new_response, s)).1
    = StatusBadRequest
  ∧ status_code (@setupRouter Sample.codec Sample.wire "id-1" 0 "secret-key"
                   (with_header "x-api-key" "wrong-key" r) (new_response, s)).1
    = StatusUnauthorized.
Proof.
  intros r s.
  destruct (@api_key_authentication Sample.codec Sample.wire "id-1" 0 "secret-key" r s)
    as (Hrej & _ & _ & _ & _ & Hsent & _).
  destruct (@api_key_authentication Sample.codec Sample.wire "id-1" 0 EmptyString r s)
    as (_ & _ & _ & Hempty & _).
  destruct (Hsent (@enqueueHandler Sample.codec Sample.wire "id-1" 0)
              "x-api-key"%string "secret-key"%string) as (_ & Hpass);
    [reflexivity | discriminate | discriminate | reflexivity |].
  destruct (Hsent (@enqueueHandler Sample.codec Sample.wire "id-1" 0)
              "x-api-key"%string "wrong-key"%string) as (Hwrong & _);
    [reflexivity | discriminate | discriminate | reflexivity |].
  repeat apply conj.
  - apply (Hrej (@enqueueHandler Sample.codec Sample.wire "id-1" 0));
      [reflexivity | discriminate | discriminate | discriminate].
  - apply Hempty; reflexivity.
  - rewrite (Hpass eq_refl). reflexivity.
  - apply Hwrong. discriminate.
Defined.

(** ** Queue selection *)

Lemma rpush_grows k v st : get_list k (RPush k v st) ≠ get_list k st.
Proof.
  intros Heq. apply (f_equal length) in Heq.
  destruct k, st; simpl in Heq; unfold Redis.rpush in Heq;
    rewrite length_app in Heq; simpl in Heq; lia.
Qed.

Lemma Enqueue_route `{Codec} task data st :
  json_marshal task = Some data →
  (Priority task = PriorityHigh → Enqueue task st = Ok (RPush QHigh data st))
  ∧ (Priority task = PriorityLow → Enqueue task st = Ok (RPush QLow data st))
  ∧ (Enqueue task st = Ok (RPush QDefault data st)
     ↔ Priority task ≠ PriorityHigh ∧ Priority task ≠ PriorityLow).
Proof.
  intros Hm. unfold Enqueue. rewrite Hm.
  unfold PriorityHigh, PriorityLow.
  destruct (Z.eqb_spec (Priority task) 2) as [Hh|Hh];
    [|destruct (Z.eqb_spec (Priority task) 0) as [Hl|Hl]].
  - split; [done|]. split; [lia|]. split; [|lia].
    intros Heq. exfalso.
    assert (Hst : RPush QHigh data st = RPush QDefault data st) by congruence.
    apply (f_equal (get_list QHigh)) in Hst. exact (rpush_grows QHigh data st Hst).
  - split; [lia|]. split; [done|]. split; [|lia].
    intros Heq. exfalso.
    assert (Hst : RPush QLow data st = RPush QDefault data st) by congruence.
    apply (f_equal (get_list QLow)) in Hst. exact (rpush_grows QLow data st Hst).
  - split; [lia|]. split; [lia|]. split; [lia|done].
Qed.

(** C10. A [POST /enqueue] whose body decodes and carries no priority
    field creates a task of priority 0 (Low), which [Enqueue] appends to
    [queue:low], not to [queue:default]. In general [Enqueue] sends to
    [queue:default] exactly the tasks whose priority is neither 2 (High)
    nor 0 (Low). *)
Theorem default_priority_is_low `{Codec} `{Wire} (uuid : string) (now : Z)
    (apiKey : string) (r : Request) (s : Server) (b : BodyFields) (data : string) :
  Path r = "/enqueue"%string →
  Method r = "POST"%string →
  apiKey = EmptyString ∨ header_get "X-API-Key" r = apiKey →
  decode_body (Body r) = Some b →
  f_priority b = None →
  json_marshal (task_of_body uuid now b) = Some data →
  Priority (task_of_body uuid now b) = PriorityLow
  ∧ status_code (setupRouter uuid now apiKey r (new_response, s)).1 = StatusOK
  ∧ broker (setupRouter uuid now apiKey r (new_response, s)).2
    = mkBroker (queue_high (broker s)) (queue_default (broker s))
        (queue_low (broker s) ++ [data]) (processing_queue (broker s))
        (dead_letter_queue (broker s)) (completed_queue (broker s))
        (delayed_queue (broker s)) (ratelimit (broker s)) (results (broker s))
  ∧ (∀ task d st,
       json_marshal task = Some d →
       (Priority task = PriorityHigh → Enqueue task st = Ok (RPush QHigh d st))
       ∧ (Priority task = PriorityLow → Enqueue task st = Ok (RPush QLow d st))
       ∧ (Enqueue task st = Ok (RPush QDefault d st)
          ↔ Priority task ≠ PriorityHigh ∧ Priority task ≠ PriorityLow)).
Proof.
  intros Hp Hm Hkey Hd Hprio Hdata.
  assert (Hlow : Priority (task_of_body uuid now b) = PriorityLow).
  { unfold task_of_body; simpl. by rewrite Hprio. }
  assert (Hrun : setupRouter uuid now apiKey r (new_response, s)
                 = enqueueHandler uuid now r
                     (header_set "Access-Control-Allow-Headers"
           "Accept, Content-Type, Content-Length, Accept-Encoding, X-CSRF-Token, Authorization, X-API-Key"
                        (header_set "Access-Control-Allow-Methods"
                           "POST, GET, OPTIONS, PUT, DELETE"
                           (header_set "Access-Control-Allow-Origin" "*" new_response)), s)).
  { unfold setupRouter, endpoint. rewrite Hp. simpl String.eqb. cbv iota.
    unfold enableCORS. rewrite Hm. simpl String.eqb. cbv iota.
    destruct Hkey as [->|Hh]; [apply auth_disabled|by apply auth_accepts]. }
  assert (Henq : Enqueue (task_of_body uuid now b) (broker s)
                 = Ok (RPush QLow data (broker s))).
  { by apply (Enqueue_route _ _ _ Hdata). }
  repeat apply conj; [exact Hlow| | |intros task d st; apply Enqueue_route].
  - rewrite Hrun. unfold enqueueHandler. rewrite Hm, Hd, Henq. simpl.
    by apply status_code_write.
  - rewrite Hrun. unfold enqueueHandler. rewrite Hm, Hd, Henq. simpl. done.
Qed.

Lemma default_priority_is_low_witness :
  let body := Sample.cat ["{"; Sample.quote; "type"; Sample.quote; ":"; Sample.quote;
                          "email"; Sample.quote; Sample.member "payload"; "{}"; "}"]%string in
  let r := mkRequest "POST" "/enqueue" ∅ ∅ body in
  let s := mkServer empty_broker [] in
  let task := mkTask "id-1" "email" "{}" 1700000000000000000 0 0 in
  broker (@setupRouter Sample.codec Sample.wire "id-1" 1700000000000000000 EmptyString r
            (new_response, s)).2
  = set_list QLow [Sample.render task] empty_broker.
Proof.
  intros body r s task.
  destruct (@default_priority_is_low Sample.codec Sample.wire "id-1" 1700000000000000000
              EmptyString r s (mkBody None (Some "email"%string) (Some "{}"%string) None)
              (Sample.render task))
    as (_ & _ & Hb & _);
    [reflexivity | reflexivity | by left | reflexivity | reflexivity | reflexivity |].
  rewrite Hb. reflexivity.
Defined.

(** * Further properties of the engine *)

(** ** Enqueue and Dequeue together *)

(** X1. On a broker whose ready queues are empty, [Enqueue] followed by
    [Dequeue] hands back the task as its encoding decodes, with the
    encoding as raw token: the ready queues are empty again and the
    encoding is at the tail of the in-flight list. *)
Theorem enqueue_then_dequeue `{Codec} (task task' : Task) (data : string) (st : Broker) :
  queue_high st = [] → queue_default st = [] → queue_low st = [] →
  json_marshal task = Some data →
  json_unmarshal data = Some task' →
  ∃ st1,
    Enqueue task st = Ok st1
    ∧ Dequeue st1 =
        (DqTask task' data,
         mkBroker [] [] [] (processing_queue st ++ [data])
           (dead_letter_queue st) (completed_queue st) (delayed_queue st)
           (ratelimit st) (results st)).
Proof.
  intros Hh Hd Hl Hm Hu. unfold Enqueue. rewrite Hm.
  eexists. split; [reflexivity|]. unfold Dequeue.
  assert (Hget : ∀ k, get_list k (RPush k data st) = get_list k st ++ [data]).
  { intros k. by destruct k, st. }
  destruct (Priority task =? PriorityHigh); [|destruct (Priority task =? PriorityLow)].
  - rewrite (dequeue_loop_cons_hit QHigh _ _ data []), Hu
      by (rewrite Hget; simpl; by rewrite Hh).
    destruct st; simpl in *; by subst.
  - rewrite (dequeue_loop_cons_miss QHigh) by (by destruct st).
    rewrite (dequeue_loop_cons_miss QDefault) by (by destruct st).
    rewrite (dequeue_loop_cons_hit QLow _ _ data []), Hu
      by (rewrite Hget; simpl; by rewrite Hl).
    destruct st; simpl in *; by subst.
  - rewrite (dequeue_loop_cons_miss QHigh) by (by destruct st).
    rewrite (dequeue_loop_cons_hit QDefault _ _ data []), Hu
      by (rewrite Hget; simpl; by rewrite Hd).
    destruct st; simpl in *; by subst.
Qed.

Lemma enqueue_then_dequeue_witness :
  ∃ st1,
    @Enqueue Sample.codec Sample.task1 empty_broker = Ok st1
    ∧ (@Dequeue Sample.codec st1).1 = DqTask Sample.task1 (Sample.render Sample.task1).
Proof.
  destruct (@enqueue_then_dequeue Sample.codec Sample.task1 Sample.task1
              (Sample.render Sample.task1) empty_broker) as (st1 & He & Hd);
    [reflexivity | reflexivity | reflexivity | reflexivity | reflexivity |].
  exists st1. split; [exact He|]. by rewrite Hd.
Defined.

Lemma dequeue_head `{Codec} q qs st r rest :
  get_list q st = r :: rest →
  (dequeue_loop (q :: qs) st).1
  = match json_unmarshal r with Some t => DqTask t r | None => DqError end.
Proof. intros Hq. by rewrite (dequeue_loop_cons_hit q qs st r rest Hq). Qed.

(** X2. First in, first out within a priority, and no overtaking from
    below: an [Enqueue] does not change what the next [Dequeue] returns as
    long as a queue of the same or a higher priority holds an entry. A
    task of priority High enqueued while [queue:high] is empty is what the
    next [Dequeue] returns, whatever waits in the lower queues. *)
Theorem enqueue_keeps_the_head `{Codec} (task : Task) (st st' : Broker) :
  Enqueue task st = Ok st' →
  (queue_high st ≠ [] → (Dequeue st').1 = (Dequeue st).1)
  ∧ (queue_high st = [] → queue_default st ≠ [] → Priority task ≠ PriorityHigh →
     (Dequeue st').1 = (Dequeue st).1)
  ∧ (queue_high st = [] → queue_default st = [] → queue_low st ≠ [] →
     Priority task = PriorityLow →
     (Dequeue st').1 = (Dequeue st).1)
  ∧ (queue_high st = [] → Priority task = PriorityHigh →
     ∀ data, json_marshal task = Some data →
       (Dequeue st').1
       = match json_unmarshal data with Some t => DqTask t data | None => DqError end).
Proof.
  unfold Enqueue. destruct (json_marshal task) as [data|] eqn:Hm; [|done].
  intros Hst. injection Hst as <-. unfold Dequeue, PriorityHigh, PriorityLow.
  repeat apply conj.
  - intros Hh. destruct (queue_high st) as [|r rest] eqn:Hq; [done|].
    rewrite (dequeue_head QHigh _ st r rest Hq).
    destruct (Z.eqb_spec (Priority task) 2); [|destruct (Z.eqb_spec (Priority task) 0)].
    + apply (dequeue_head QHigh _ _ r (rest ++ [data])). simpl. by rewrite Hq.
    + by apply (dequeue_head QHigh _ _ r rest).
    + by apply (dequeue_head QHigh _ _ r rest).
  - intros Hh Hd Hp. destruct (queue_default st) as [|r rest] eqn:Hq; [done|].
    rewrite (dequeue_loop_cons_miss QHigh _ st Hh).
    rewrite (dequeue_head QDefault _ st r rest Hq).
    destruct (Z.eqb_spec (Priority task) 2); [done|].
    destruct (Z.eqb_spec (Priority task) 0).
    + rewrite dequeue_loop_cons_miss by done. by apply (dequeue_head QDefault _ _ r rest).
    + rewrite dequeue_loop_cons_miss by done.
      apply (dequeue_head QDefault _ _ r (rest ++ [data])). simpl. by rewrite Hq.
  - intros Hh Hd Hl Hp. destruct (queue_low st) as [|r rest] eqn:Hq; [done|].
    rewrite (dequeue_loop_cons_miss QHigh _ st Hh).
    rewrite (dequeue_loop_cons_miss QDefault _ st Hd).
    rewrite (dequeue_head QLow _ st r rest Hq).
    destruct (Z.eqb_spec (Priority task) 2); [lia|].
    destruct (Z.eqb_spec (Priority task) 0); [|done].
    rewrite !dequeue_loop_cons_miss by done.
    apply (dequeue_head QLow _ _ r (rest ++ [data])). simpl. by rewrite Hq.
  - intros Hh Hp data' Hm'. assert (data' = data) as -> by congruence.
    destruct (Z.eqb_spec (Priority task) 2); [|done].
    apply (dequeue_head QHigh _ _ data []). simpl. by rewrite Hh.
Qed.

Lemma enqueue_keeps_the_head_witness :
  let old := Sample.render Sample.task1 in
  let urgent := mkTask "t-2" "email" "{}" 0 0 PriorityHigh in
  ∃ st',
    @Enqueue Sample.codec urgent (set_list QDefault [old] empty_broker) = Ok st'
    ∧ (@Dequeue Sample.codec st').1 = DqTask urgent (Sample.render urgent).
Proof.
  intros old urgent. eexists. split; [reflexivity|].
  match goal with |- (Dequeue ?s).1 = _ =>
    destruct (@enqueue_keeps_the_head Sample.codec urgent
                (set_list QDefault [old] empty_broker) s eq_refl) as (_ & _ & _ & Hpre)
  end.
  rewrite (Hpre eq_refl eq_refl (Sample.render urgent) eq_refl). reflexivity.
Defined.

(** ** Acknowledging and completing *)

Lemma remove_first_one_length v l :
  v ∈ l → (length (Redis.remove_first 1 v l) + 1 = length l)%nat.
Proof.
  induction l as [|x l IH]; intros Hin; [by apply elem_of_nil in Hin|].
  simpl. destruct (String.eqb_spec x v) as [->|Hne].
  - destruct l; simpl; lia.
  - apply elem_of_cons in Hin as [->|Hin]; [done|]. simpl. rewrite <- (IH Hin). lia.
Qed.

Lemma remove_first_one_count v w l :
  count_of w (Redis.remove_first 1 v l)
  = if String.eqb w v then pred (count_of v l) else count_of w l.
Proof.
  induction l as [|x l IH]; simpl.
  - by destruct (String.eqb w v).
  - destruct (String.eqb_spec x v) as [->|Hne].
    + replace (Redis.remove_first 0 v l) with l by (by destruct l).
      destruct (String.eqb_spec w v) as [->|Hwv]; simpl.
      * done.
      * destruct (String.eqb_spec v w); [congruence|done].
    + simpl. rewrite IH.
      destruct (String.eqb_spec w v) as [->|Hwv].
      * destruct (String.eqb_spec x v); [congruence|done].
      * done.
Qed.

Lemma remove_first_one_perm v l : v ∈ l → Redis.remove_first 1 v l ++ [v] ≡ₚ l.
Proof.
  intros Hin. apply list_elem_of_split_l in Hin as (l1 & l2 & -> & Hn).
  rewrite remove_first_one_split by done.
  rewrite <- app_assoc. apply Permutation_app_head.
  symmetry. apply Permutation_cons_append.
Qed.

(** X3. [Ack] with a token that is in flight removes one copy of it and
    nothing else: the in-flight list is one shorter, the token occurs
    once less, every other entry occurs as often as before, and no other
    part of the broker changes. *)
Theorem ack_removes_one_copy (raw : string) (st : Broker) :
  raw ∈ processing_queue st →
  Ack raw st = set_list Processing (Redis.remove_first 1 raw (processing_queue st)) st
  ∧ (length (processing_queue (Ack raw st)) + 1 = length (processing_queue st))%nat
  ∧ (count_of raw (processing_queue (Ack raw st)) + 1
     = count_of raw (processing_queue st))%nat
  ∧ (∀ other, other ≠ raw →
       count_of other (processing_queue (Ack raw st))
       = count_of other (processing_queue st)).
Proof.
  intros Hin.
  assert (Hack : Ack raw st
                 = set_list Processing (Redis.remove_first 1 raw (processing_queue st)) st)
    by done.
  split; [exact Hack|]. rewrite Hack.
  replace (processing_queue (set_list Processing
             (Redis.remove_first 1 raw (processing_queue st)) st))
    with (Redis.remove_first 1 raw (processing_queue st)) by (by destruct st).
  repeat apply conj.
  - by apply remove_first_one_length.
  - rewrite remove_first_one_count, String.eqb_refl.
    assert (count_of raw (processing_queue st) ≠ 0%nat); [|lia].
    intros Hz. apply list_elem_of_split in Hin as (l1 & l2 & Heq).
    rewrite Heq, count_of_app in Hz. simpl in Hz. rewrite String.eqb_refl in Hz. lia.
  - intros other Hne. rewrite remove_first_one_count.
    by destruct (String.eqb_spec other raw).
Qed.

Lemma ack_removes_one_copy_witness :
  processing_queue (Ack "a" (set_list Processing ["b"; "a"; "a"]%string empty_broker))
  = ["b"; "a"]%string.
Proof.
  destruct (ack_removes_one_copy "a" (set_list Processing ["b"; "a"; "a"]%string empty_broker))
    as (Hack & _).
  { apply elem_of_cons. right. apply elem_of_cons. by left. }
  rewrite Hack. reflexivity.
Defined.

(** X4. [Dequeue] followed by [Ack] of the token it returned leaves the
    in-flight list with the entries it had before; when no identical copy
    was in flight it is the same list. *)
Theorem dequeue_then_ack `{Codec} (st st1 : Broker) (task : Task) (raw : string) :
  Dequeue st = (DqTask task raw, st1) →
  processing_queue (Ack raw st1) ≡ₚ processing_queue st
  ∧ (raw ∉ processing_queue st → processing_queue (Ack raw st1) = processing_queue st).
Proof.
  intros Hdq.
  assert (Hp : processing_queue st1 = processing_queue st ++ [raw]).
  { unfold Dequeue in Hdq.
    assert (Hstep : ∀ q qs r rest,
               q ≠ Processing → get_list q st = r :: rest →
               dequeue_loop (q :: qs) st = (DqTask task raw, st1) →
               processing_queue st1 = processing_queue st ++ [raw]).
    { intros q qs r rest Hq Hget Hrun.
      rewrite (dequeue_loop_cons_hit q qs st r rest Hget) in Hrun.
      destruct (json_unmarshal r); [|done]. injection Hrun as _ <- <-.
      by destruct q, st. }
    destruct (queue_high st) as [|r rest] eqn:Hh; [|by eapply (Hstep QHigh)].
    rewrite dequeue_loop_cons_miss in Hdq by done.
    destruct (queue_default st) as [|r rest] eqn:Hd; [|by eapply (Hstep QDefault)].
    rewrite dequeue_loop_cons_miss in Hdq by done.
    destruct (queue_low st) as [|r rest] eqn:Hl; [|by eapply (Hstep QLow)].
    rewrite dequeue_loop_cons_miss in Hdq by done. done. }
  assert (Hack : processing_queue (Ack raw st1)
                 = Redis.remove_first 1 raw (processing_queue st ++ [raw])).
  { rewrite <- Hp. by destruct st1. }
  rewrite Hack. split.
  - apply (Permutation_app_inv_r [raw]). apply remove_first_one_perm.
    apply elem_of_app. right. by left.
  - intros Habs. rewrite (remove_first_one_split raw _ []) by done. by rewrite app_nil_r.
Qed.

Lemma dequeue_then_ack_witness :
  let raw := Sample.render Sample.task1 in
  let st := set_list QLow [raw] (set_list Processing ["busy"%string] empty_broker) in
  processing_queue (Ack raw (@Dequeue Sample.codec st).2) = ["busy"%string].
Proof.
  intros raw st.
  destruct (@dequeue_then_ack Sample.codec st (@Dequeue Sample.codec st).2 Sample.task1 raw)
    as (_ & Hsame); [reflexivity|].
  rewrite Hsame; [reflexivity|].
  intros Hin. apply list_elem_of_singleton in Hin. vm_compute in Hin. discriminate.
Defined.

(** X5. [Complete] with a token that is in flight moves it from the
    in-flight list to the tail of the completed list. The in-flight list
    loses the first copy of the token and nothing else, whatever the
    length of the completed list: it is one shorter, the token occurs once
    less and every other entry as often as before. The ready queues, the
    dead-letter list, the delay set, the buckets and the results are
    unchanged. While the completed list has fewer than 100 entries nothing
    is lost; from 100 entries on only its last 99 entries stay ahead of
    the token, so at exactly 100 the oldest completed entry is dropped. *)
Theorem complete_moves_token (raw : string) (st : Broker) :
  raw ∈ processing_queue st →
  Complete raw st
  = mkBroker (queue_high st) (queue_default st) (queue_low st)
      (Redis.remove_first 1 raw (processing_queue st))
      (dead_letter_queue st)
      (last_n 100 (completed_queue st ++ [raw]))
      (delayed_queue st) (ratelimit st) (results st)
  ∧ processing_queue (Complete raw st) = Redis.remove_first 1 raw (processing_queue st)
  ∧ (∃ l1 l2, processing_queue st = l1 ++ raw :: l2
              ∧ (raw ∉ l1)
              ∧ processing_queue (Complete raw st) = l1 ++ l2)
  ∧ (length (processing_queue (Complete raw st)) + 1 = length (processing_queue st))%nat
  ∧ (count_of raw (processing_queue (Complete raw st)) + 1
     = count_of raw (processing_queue st))%nat
  ∧ (∀ other, other ≠ raw →
       count_of other (processing_queue (Complete raw st))
       = count_of other (processing_queue st))
  ∧ ((length (completed_queue st) < 100)%nat →
     completed_queue (Complete raw st) = completed_queue st ++ [raw]
     ∧ all_places (Complete raw st) ≡ₚ all_places st)
  ∧ (length (completed_queue st) = 100%nat →
     completed_queue (Complete raw st) = drop 1 (completed_queue st) ++ [raw])
  ∧ ((100 <= length (completed_queue st))%nat →
     completed_queue (Complete raw st)
     = last_n 99 (completed_queue st) ++ [raw]
     ∧ length (completed_queue (Complete raw st)) = 100%nat).
Proof.
  intros Hin. rewrite Complete_unfold. cbn [processing_queue completed_queue].
  split; [done|]. split; [done|]. split.
  { apply list_elem_of_split_l in Hin as (l1 & l2 & Heq & Hn).
    exists l1, l2. rewrite Heq. split; [done|]. split; [done|].
    by apply remove_first_one_split. }
  split; [by apply remove_first_one_length|]. split.
  { rewrite remove_first_one_count, String.eqb_refl.
    assert (count_of raw (processing_queue st) ≠ 0%nat); [|lia].
    intros Hz. apply list_elem_of_split in Hin as (l1 & l2 & Heq).
    rewrite Heq, count_of_app in Hz. simpl in Hz. rewrite String.eqb_refl in Hz. lia. }
  split.
  { intros other Hne. rewrite remove_first_one_count.
    by destruct (String.eqb_spec other raw). }
  split.
  { intros Hlen.
    assert (Hc : last_n 100 (completed_queue st ++ [raw]) = completed_queue st ++ [raw]).
    { apply last_n_short. rewrite length_app. simpl. lia. }
    rewrite Hc. split; [done|].
    unfold all_places; simpl. do 3 apply Permutation_app_head.
    etrans; [|apply Permutation_app_tail, (remove_first_one_perm raw _ Hin)].
    rewrite <- app_assoc. apply Permutation_app_head, Permutation_app_comm. }
  split.
  { intros Hlen. unfold last_n. rewrite length_app, Hlen. simpl.
    rewrite drop_app_le by lia. done. }
  intros Hlen. unfold last_n. rewrite length_app. simpl.
  replace (length (completed_queue st) + 1 - 100)%nat
    with (length (completed_queue st) - 99)%nat by lia.
  rewrite drop_app_le by lia. split; [done|].
  rewrite length_app, length_drop. simpl. lia.
Qed.

Lemma complete_moves_token_witness :
  let st := set_list Processing ["a"; "b"; "b"]%string
              (set_list Completed ["z"%string] empty_broker) in
  completed_queue (Complete "b" st) = ["z"; "b"]%string
  ∧ processing_queue (Complete "b" st) = ["a"; "b"]%string.
Proof.
  intros st.
  destruct (complete_moves_token "b" st) as (_ & Hp & _ & _ & _ & _ & Hfew & _).
  { apply elem_of_cons. right. by left. }
  destruct Hfew as (Hc & _); [simpl; lia|].
  rewrite Hc, Hp. split; reflexivity.
Defined.

(** ** Retry and the delay set *)

Lemma zadd_entries s m z x :
  x ∈ Redis.zadd s m z ↔ x = (m, s) ∨ (x ∈ z ∧ x.1 ≠ m).
Proof.
  unfold Redis.zadd. rewrite zinsert_perm, elem_of_cons.
  unfold Redis.zrem. rewrite elem_of_bool_filter.
  split; intros [Hx|[Hin Hne]]; [by left| |by left|].
  - right. split; [done|]. by destruct (String.eqb_spec x.1 m).
  - right. split; [done|]. by destruct (String.eqb_spec x.1 m).
Qed.

Lemma zscore_filter_none m (f : string * Z → bool) (z : Redis.zset) :
  (∀ x, x ∈ z → x.1 = m → f x = false) →
  Redis.zscore m (List.filter f z) = None.
Proof.
  unfold Redis.zscore. induction z as [|x z IH]; intros Hz; simpl; [done|].
  assert (Hrest : ∀ y, y ∈ z → y.1 = m → f y = false)
    by (intros y Hy; apply Hz; by right).
  destruct (f x) eqn:Hf; simpl; [|by apply IH].
  destruct (String.eqb_spec x.1 m) as [Hm|_]; [|by apply IH].
  rewrite (Hz x) in Hf; [done|by left|done].
Qed.

Lemma zscore_filter_some m s (f : string * Z → bool) (z : Redis.zset) :
  (m, s) ∈ z →
  (∀ x, x ∈ z → x.1 = m → x = (m, s)) →
  f (m, s) = true →
  Redis.zscore m (List.filter f z) = Some s.
Proof.
  unfold Redis.zscore. induction z as [|x z IH]; intros Hin Hz Hf; simpl.
  - by apply elem_of_nil in Hin.
  - assert (Hrest : ∀ y, y ∈ z → y.1 = m → y = (m, s))
      by (intros y Hy; apply Hz; by right).
    destruct (String.eqb_spec x.1 m) as [Hm|Hm].
    + assert (Hx : x = (m, s)) by (apply Hz; [by left|done]).
      subst x. destruct (f (m, s)); [|done]. simpl. by rewrite String.eqb_refl.
    + apply elem_of_cons in Hin as [Heq|Hin]; [by subst x|].
      destruct (f x); simpl; [|by apply IH].
      destruct (String.eqb_spec x.1 m); [done|by apply IH].
Qed.

(** X6. A retried task waits in the delay set until a scheduler run
    whose [now] reaches its score: a run with a smaller [now] leaves it
    there with its score, the first run with [now] at or above the score
    takes it out and appends it to [queue:default] — also when the task's
    priority is High or Low, [queue:high] and [queue:low] stay as they
    are. *)
Theorem retried_task_is_promoted `{Codec} (now : Z) (task : Task) (raw : string)
    (st : Broker) (data : string) :
  0 <= RetryCount task < Int64.max_int →
  json_marshal (with_retry_count task (RetryCount task + 1)) = Some data →
  ∃ score st1,
    Retry now task raw st = Ok st1
    ∧ Redis.zscore data (delayed_queue st1) = Some score
    ∧ (∀ tick,
         queue_default (promote_script tick st1).2
         = queue_default st ++ map fst (due_entries tick (delayed_queue st1))
         ∧ queue_high (promote_script tick st1).2 = queue_high st
         ∧ queue_low (promote_script tick st1).2 = queue_low st)
    ∧ (∀ tick, tick < score →
         (data ∉ map fst (due_entries tick (delayed_queue st1)))
         ∧ Redis.zscore data (delayed_queue (promote_script tick st1).2) = Some score)
    ∧ (∀ tick, score <= tick →
         data ∈ map fst (due_entries tick (delayed_queue st1))
         ∧ Redis.zscore data (delayed_queue (promote_script tick st1).2) = None).
Proof.
  intros Hk Hm.
  destruct (Retry_any_count now task raw st data Hk Hm) as (score & Hr & Hs).
  eexists score, _. split; [exact Hr|]. split; [exact Hs|].
  set (z := Redis.zadd score data (delayed_queue st)) in *.
  assert (Hin : (data, score) ∈ z) by (apply zadd_entries; by left).
  assert (Huniq : ∀ x, x ∈ z → x.1 = data → x = (data, score)).
  { intros x Hx Hd. apply zadd_entries in Hx as [->|[_ Hne]]; done. }
  repeat apply conj.
  - intros tick. rewrite promote_script_unfold. by simpl.
  - intros tick Hlt. rewrite promote_script_unfold. simpl. fold z. split.
    + intros Hd. apply list_elem_of_fmap in Hd as (x & Hx & Hd).
      unfold due_entries in Hd. apply elem_of_bool_filter in Hd as [Hxz Hle].
      rewrite (Huniq x Hxz (eq_sym Hx)) in Hle. simpl in Hle. lia.
    + apply (zscore_filter_some data score); [done|done|].
      simpl. destruct (Z.leb_spec score tick); [lia|done].
  - intros tick Hle. rewrite promote_script_unfold. simpl. fold z. split.
    + apply list_elem_of_fmap. exists (data, score). split; [done|].
      apply elem_of_bool_filter. split; [done|]. simpl. lia.
    + apply zscore_filter_none. intros x Hx Hd.
      rewrite (Huniq x Hx Hd). simpl. destruct (Z.leb_spec score tick); [done|lia].
Qed.

Lemma retried_task_is_promoted_witness :
  let urgent := mkTask "t-2" "email" "{}" 0 0 PriorityHigh in
  let data := Sample.render (with_retry_count urgent 1) in
  ∃ st1,
    @Retry Sample.codec 1700000000000000000 urgent "raw" empty_broker = Ok st1
    ∧ queue_default (promote_script 1700000000200000000 st1).2 = [data]
    ∧ queue_high (promote_script 1700000000200000000 st1).2 = [].
Proof.
  intros urgent data.
  destruct (@retried_task_is_promoted Sample.codec 1700000000000000000 urgent "raw"
              empty_broker data) as (score & st1 & Hr & _ & Hq & _);
    [vm_compute; split; [discriminate|reflexivity] | reflexivity |].
  exists st1. split; [exact Hr|].
  destruct (Hq 1700000000200000000) as (Hd & Hh & _).
  rewrite Hd, Hh. split; [|reflexivity].
  assert (Hst1 : st1 = set_delayed [(data, 1700000000200000000)] empty_broker).
  { vm_compute in Hr. injection Hr as <-. reflexivity. }
  rewrite Hst1. reflexivity.
Defined.

(** X7. [Retry] panics on a retry count below -1 (the shift count
    [retry_count + 1] is negative) and on the largest 64-bit count (the
    increment wraps to the smallest). The worker, which retries a failed
    task whose count is below 3, panics with it on a count below -1. *)
Theorem retry_panics_on_bad_count `{Codec} (now : Z) (task : Task) (raw : string)
    (st : Broker) :
  Int64.min_int <= RetryCount task < -1 ∨ RetryCount task = Int64.max_int →
  Retry now task raw st = Panicked
  ∧ (∀ handlers : Handlers,
       RetryCount task < -1 → @settle _ handlers true now task raw st = Panicked).
Proof.
  intros Hk.
  assert (Hr : Retry now task raw st = Panicked).
  { unfold Retry, backoff, Int64.shl. simpl.
    assert (Hneg : Int64.add (RetryCount task) 1 < 0).
    { destruct Hk as [Hk| ->].
      - unfold Int64.add. rewrite wrap_small; unfold Int64.min_int, Int64.max_int in *;
          change (2 ^ 63) with 9223372036854775808 in *; lia.
      - vm_compute. done. }
    destruct (Z.ltb_spec (Int64.add (RetryCount task) 1) 0); [done|lia]. }
  split; [exact Hr|]. intros handlers Hlt. unfold settle.
  destruct (Z.ltb_spec (RetryCount task) 3); [|lia]. by rewrite Hr.
Qed.

Lemma retry_panics_on_bad_count_witness :
  @Retry Sample.codec 0 (with_retry_count Sample.task1 (-2)) "raw" empty_broker = Panicked.
Proof.
  apply (@retry_panics_on_bad_count Sample.codec 0 (with_retry_count Sample.task1 (-2))
           "raw" empty_broker).
  left. vm_compute. split; [discriminate|reflexivity].
Defined.

Lemma wrap_mul_l a b : Int64.wrap (Int64.wrap a * b) = Int64.wrap (a * b).
Proof.
  unfold Int64.wrap.
  change (2 ^ 63) with 9223372036854775808. change (2 ^ 64) with 18446744073709551616.
  f_equal.
  rewrite (Z.mod_eq (a + 9223372036854775808) 18446744073709551616) by lia.
  set (q := (a + 9223372036854775808) / 18446744073709551616).
  replace ((a + 9223372036854775808 - 18446744073709551616 * q - 9223372036854775808) * b
           + 9223372036854775808)
    with (a * b + 9223372036854775808 + (- q * b) * 18446744073709551616) by lia.
  apply Z_mod_plus_full.
Qed.

(** X8. From a retry count of 56 on, the backoff computed on 64 bits is
    zero: [2^n * 100ms] in nanoseconds is a multiple of [2^64]. A task at
    count 55 or more is made due at the instant of the [Retry] call. *)
Theorem backoff_vanishes `{Codec} (n : Z) :
  56 <= n →
  backoff n = Some 0
  ∧ (∀ now task raw st data,
       RetryCount task + 1 = n →
       RetryCount task < Int64.max_int →
       Int64.min_int <= now <= Int64.max_int →
       json_marshal (with_retry_count task n) = Some data →
       Retry now task raw st =
         Ok (mkBroker (queue_high st) (queue_default st) (queue_low st)
               (Redis.remove_first 1 raw (processing_queue st))
               (dead_letter_queue st) (completed_queue st)
               (Redis.zadd (Float64.of_int now) data (delayed_queue st))
               (ratelimit st) (results st))).
Proof.
  intros Hn.
  assert (Hb : backoff n = Some 0).
  { unfold backoff, Int64.shl, Int64.mul.
    destruct (Z.ltb_spec n 0); [lia|]. cbv beta iota. rewrite Z.shiftl_1_l. f_equal.
    rewrite wrap_mul_l, <- Z.mul_assoc, wrap_mul_l, Z.mul_assoc.
    replace n with (n - 56 + 56) by lia. rewrite Z.pow_add_r by lia.
    unfold Int64.wrap.
    change (2 ^ 56) with 72057594037927936.
    change (2 ^ 63) with 9223372036854775808. change (2 ^ 64) with 18446744073709551616.
    replace (2 ^ (n - 56) * 72057594037927936 * 100 * 1000000 + 9223372036854775808)
      with (9223372036854775808 + (2 ^ (n - 56) * 390625) * 18446744073709551616) by lia.
    rewrite Z_mod_plus_full. reflexivity. }
  split; [exact Hb|].
  intros now task raw st data Hk Hmax Hnow Hm.
  assert (Hinc : Int64.add (RetryCount task) 1 = n).
  { rewrite increment_small; [done|lia]. }
  rewrite (Retry_unfold now task raw st 0 data); rewrite ?Hinc; try done.
  unfold Int64.add. rewrite Z.add_0_r, wrap_small by done. done.
Qed.

Lemma backoff_vanishes_witness :
  @Retry Sample.codec 1700000000000000000 (with_retry_count Sample.task1 55) "raw" empty_broker
  = Ok (set_delayed [(Sample.render (with_retry_count Sample.task1 56), 1700000000000000000)]
          empty_broker).
Proof.
  destruct (@backoff_vanishes Sample.codec 56) as (_ & Hr); [lia|].
  rewrite (Hr 1700000000000000000 (with_retry_count Sample.task1 55) "raw" empty_broker
             (Sample.render (with_retry_count Sample.task1 56)));
    [reflexivity | reflexivity | vm_compute; reflexivity
    | vm_compute; split; discriminate | reflexivity].
Defined.

Lemma zrem_not_member m (z : Redis.zset) : m ∉ map fst z → Redis.zrem m z = z.
Proof.
  unfold Redis.zrem. induction z as [|x z IH]; simpl; [done|].
  intros Hn. apply not_elem_of_cons in Hn as [Hne Hn].
  destruct (String.eqb_spec x.1 m); [congruence|]. simpl. by rewrite IH.
Qed.

Lemma zrem_member m (z : Redis.zset) :
  NoDup (map fst z) → m ∈ map fst z → S (length (Redis.zrem m z)) = length z.
Proof.
  induction z as [|x z IH]; simpl; intros Hnd Hin; [by apply elem_of_nil in Hin|].
  apply NoDup_cons in Hnd as [Hx Hnd].
  destruct (String.eqb_spec x.1 m) as [Heq|Hne]; simpl.
  - fold (Redis.zrem m z). rewrite zrem_not_member; [done|by rewrite <- Heq].
  - apply elem_of_cons in Hin as [Heq|Hin]; [congruence|].
    fold (Redis.zrem m z). by rewrite IH.
Qed.

Lemma zinsert_find_other m e (z : Redis.zset) :
  e.1 ≠ m →
  List.find (fun x => String.eqb x.1 m) (Redis.zinsert e z)
  = List.find (fun x => String.eqb x.1 m) z.
Proof.
  intros Hne. induction z as [|x z IH]; simpl.
  - by destruct (String.eqb_spec e.1 m).
  - destruct (Redis.entry_le e x); simpl.
    + by destruct (String.eqb_spec e.1 m).
    + by rewrite IH.
Qed.

Lemma zrem_find_other m m' (z : Redis.zset) :
  m' ≠ m →
  List.find (fun x => String.eqb x.1 m) (Redis.zrem m' z)
  = List.find (fun x => String.eqb x.1 m) z.
Proof.
  intros Hne. unfold Redis.zrem. induction z as [|x z IH]; simpl; [done|].
  destruct (String.eqb_spec x.1 m') as [Heq|Hx]; simpl.
  - destruct (String.eqb_spec x.1 m); [congruence|done].
  - by rewrite IH.
Qed.

(** X9. The delay set holds an encoded task once. [Retry] of a task whose
    re-encoded form is already a member gives that member the new score
    and adds no entry; otherwise the delay set grows by one. The other
    members keep their scores, and the set stays sorted and free of
    duplicates. *)
Theorem retry_rescores_a_member `{Codec} (now : Z) (task : Task) (raw : string)
    (st : Broker) (data : string) :
  zset_wf (delayed_queue st) →
  0 <= RetryCount task < Int64.max_int →
  json_marshal (with_retry_count task (RetryCount task + 1)) = Some data →
  ∃ score st1,
    Retry now task raw st = Ok st1
    ∧ Redis.zscore data (delayed_queue st1) = Some score
    ∧ zset_wf (delayed_queue st1)
    ∧ (data ∈ map fst (delayed_queue st) →
       Redis.zcard (delayed_queue st1) = Redis.zcard (delayed_queue st))
    ∧ (data ∉ map fst (delayed_queue st) →
       Redis.zcard (delayed_queue st1) = Redis.zcard (delayed_queue st) + 1)
    ∧ (∀ other, other ≠ data →
         Redis.zscore other (delayed_queue st1) = Redis.zscore other (delayed_queue st)).
Proof.
  intros Hwf Hk Hm.
  destruct (Retry_any_count now task raw st data Hk Hm) as (score & Hr & Hs).
  eexists score, _. split; [exact Hr|]. split; [exact Hs|].
  cbn [delayed_queue]. unfold Redis.zcard, Redis.zadd.
  split; [by apply zadd_wf|]. split; [|split].
  - intros Hin. rewrite (Permutation_length (zinsert_perm _ _)). simpl.
    by rewrite (zrem_member data _ (proj1 Hwf) Hin).
  - intros Hout. rewrite (Permutation_length (zinsert_perm _ _)). simpl.
    rewrite (zrem_not_member data _ Hout). lia.
  - intros other Hne. unfold Redis.zscore.
    rewrite zinsert_find_other by (simpl; congruence).
    by rewrite zrem_find_other by congruence.
Qed.

Lemma retry_rescores_a_member_witness :
  let data := Sample.render (with_retry_count Sample.task1 1) in
  let st := set_delayed [(data, 5)] empty_broker in
  @Retry Sample.codec 1700000000000000000 Sample.task1 "raw" st
  = Ok (set_delayed [(data, 1700000000200000000)] empty_broker).
Proof.
  intros data st.
  assert (Hwf : zset_wf (delayed_queue st)).
  { split; [apply NoDup_singleton|repeat constructor]. }
  destruct (@retry_rescores_a_member Sample.codec 1700000000000000000 Sample.task1 "raw"
              st data Hwf) as (score & st1 & Hr & _);
    [vm_compute; split; [discriminate|reflexivity] | reflexivity |].
  rewrite Hr. vm_compute in Hr. injection Hr as <-. reflexivity.
Defined.

(** ** The depths reported *)

Lemma GetQueueDepths_unfold st :
  GetQueueDepths st =
    <["delayed_queue"%string := Redis.zcard (delayed_queue st)]>
      (<["dead_letter_queue"%string := Z.of_nat (length (dead_letter_queue st))]>
         (<["processing_queue"%string := Z.of_nat (length (processing_queue st))]>
            (<["queue:low"%string := Z.of_nat (length (queue_low st))]>
               (<["queue:default"%string := Z.of_nat (length (queue_default st))]>
                  (<["queue:high"%string := Z.of_nat (length (queue_high st))]> ∅))))).
Proof. reflexivity. Qed.

Lemma total_depth_eq st :
  total_depth st
  = Z.of_nat (length (queue_high st)) + Z.of_nat (length (queue_default st))
    + Z.of_nat (length (queue_low st)) + Z.of_nat (length (processing_queue st))
    + Z.of_nat (length (dead_letter_queue st)) + Redis.zcard (delayed_queue st).
Proof.
  unfold total_depth. rewrite GetQueueDepths_unfold.
  repeat (rewrite map_fold_insert_L;
          [ | intros; lia
            | rewrite ?lookup_insert_ne by done; apply lookup_empty ]).
  rewrite map_fold_empty. lia.
Qed.

Lemma dequeue_frame `{Codec} st :
  dead_letter_queue (Dequeue st).2 = dead_letter_queue st
  ∧ completed_queue (Dequeue st).2 = completed_queue st
  ∧ delayed_queue (Dequeue st).2 = delayed_queue st
  ∧ ratelimit (Dequeue st).2 = ratelimit st
  ∧ results (Dequeue st).2 = results st.
Proof.
  unfold Dequeue.
  destruct (queue_high st) as [|r rest] eqn:Hh.
  2:{ rewrite (dequeue_loop_cons_hit QHigh _ st r rest Hh). by destruct st. }
  rewrite dequeue_loop_cons_miss by done.
  destruct (queue_default st) as [|r rest] eqn:Hd.
  2:{ rewrite (dequeue_loop_cons_hit QDefault _ st r rest Hd). by destruct st. }
  rewrite dequeue_loop_cons_miss by done.
  destruct (queue_low st) as [|r rest] eqn:Hl.
  2:{ rewrite (dequeue_loop_cons_hit QLow _ st r rest Hl). by destruct st. }
  by rewrite dequeue_loop_cons_miss by done.
Qed.

Lemma all_places_length st :
  length (all_places st)
  = (length (queue_high st) + length (queue_default st) + length (queue_low st)
     + length (processing_queue st) + length (completed_queue st))%nat.
Proof. unfold all_places. rewrite !length_app. lia. Qed.

(** X10. The depths of [GetQueueDepths] cover the three ready queues,
    the in-flight list, the dead-letter list and the delay set, not the
    completed list. Their sum is kept by [Dequeue], by [Fail] of a token
    in flight and by a run of the promotion script; a successful
    [Enqueue] adds one to it; [Ack] and [Complete] of a token in flight
    take one off. *)
Theorem total_depth_conservation `{Codec} (st : Broker) :
  GetQueueDepths st !! "completed_queue"%string = None
  ∧ total_depth (Dequeue st).2 = total_depth st
  ∧ (∀ tick, total_depth (promote_script tick st).2 = total_depth st)
  ∧ (∀ task st', Enqueue task st = Ok st' → total_depth st' = total_depth st + 1)
  ∧ (∀ task raw st',
       raw ∈ processing_queue st → Fail task raw st = Ok st' →
       total_depth st' = total_depth st)
  ∧ (∀ raw,
       raw ∈ processing_queue st →
       total_depth (Ack raw st) = total_depth st - 1
       ∧ total_depth (Complete raw st) = total_depth st - 1).
Proof.
  repeat apply conj.
  - rewrite GetQueueDepths_unfold. by rewrite !lookup_insert_ne by done.
  - rewrite !total_depth_eq.
    destruct (dequeue_frame st) as (Hdl & Hc & Hz & _).
    pose proof (Permutation_length (dequeue_all_places st)) as Hlen.
    rewrite !all_places_length, Hc in Hlen. rewrite Hdl, Hz. lia.
  - intros tick. rewrite promote_script_unfold, !total_depth_eq. simpl.
    pose proof (Permutation_length
                  (filter_split_perm (fun e => e.2 <=? tick) (delayed_queue st))) as Hlen.
    rewrite length_app, !length_map in Hlen.
    unfold Redis.zcard, due_entries. rewrite length_app, length_map. lia.
  - intros task st'. unfold Enqueue.
    destruct (json_marshal task) as [data|]; [|done]. intros Hst. injection Hst as <-.
    rewrite !total_depth_eq.
    destruct st;
      destruct (Priority task =? PriorityHigh); [|destruct (Priority task =? PriorityLow)];
      simpl; unfold Redis.rpush; rewrite length_app; simpl; lia.
  - intros task raw st' Hin. unfold Fail.
    destruct (json_marshal task) as [data|]; [|done]. intros Hst. injection Hst as <-.
    rewrite !total_depth_eq.
    pose proof (remove_first_one_length raw _ Hin) as Hlen.
    destruct st; simpl in *. rewrite lrem_one. unfold Redis.rpush.
    rewrite length_app. simpl. lia.
  - intros raw Hin. pose proof (remove_first_one_length raw _ Hin) as Hlen.
    rewrite Complete_unfold, !total_depth_eq.
    split; destruct st; simpl in *; rewrite ?lrem_one; lia.
Qed.

Lemma total_depth_conservation_witness :
  let st := set_list Processing ["a"; "b"]%string empty_broker in
  total_depth (Complete "a" st) = 1 ∧ total_depth st = 2.
Proof.
  intros st.
  destruct (@total_depth_conservation Sample.codec st) as (_ & _ & _ & _ & _ & Hdone).
  destruct (Hdone "a"%string) as (_ & Hc); [by left|].
  assert (Hst : total_depth st = 2) by (rewrite total_depth_eq; reflexivity).
  split; [|exact Hst]. rewrite Hc, Hst. reflexivity.
Defined.

(** ** The result store *)

Lemma result_key_inj a b : result_key a = result_key b → a = b.
Proof. unfold result_key. cbv [String.append]. congruence. Qed.

(** X11. For 24 hours from the [SetResult] call, on the broker's clock
    in milliseconds, [GetResult] returns what that call stored for the
    task id; once the 24 hours have passed it finds nothing, as on a
    broker that never stored a result. A [SetResult] leaves the results of
    other ids and every queue as they are, and a second [SetResult] for an
    id replaces the first and starts its 24 hours anew. *)
Theorem result_round_trip (setAt getAt : Z) (taskID data : string) (st : Broker) :
  (unix_millis getAt <= unix_millis setAt + result_ttl →
   GetResult getAt taskID (SetResult setAt taskID data st) = Some data)
  ∧ (unix_millis setAt + result_ttl < unix_millis getAt →
     GetResult getAt taskID (SetResult setAt taskID data st) = None)
  ∧ (∀ other, other ≠ taskID →
       GetResult getAt other (SetResult setAt taskID data st) = GetResult getAt other st)
  ∧ (∀ setAt' data',
       SetResult setAt' taskID data' (SetResult setAt taskID data st)
       = SetResult setAt' taskID data' st)
  ∧ GetResult getAt taskID empty_broker = None
  ∧ all_places (SetResult setAt taskID data st) = all_places st
  ∧ delayed_queue (SetResult setAt taskID data st) = delayed_queue st
  ∧ dead_letter_queue (SetResult setAt taskID data st) = dead_letter_queue st.
Proof.
  unfold GetResult, SetResult. simpl. repeat apply conj; try done.
  - intros Hlive. rewrite lookup_insert_eq.
    destruct (Z.ltb_spec (unix_millis setAt + result_ttl) (unix_millis getAt)); [lia|done].
  - intros Hgone. rewrite lookup_insert_eq.
    destruct (Z.ltb_spec (unix_millis setAt + result_ttl) (unix_millis getAt)); [done|lia].
  - intros other Hne. rewrite lookup_insert_ne; [done|].
    intros Heq. by apply result_key_inj in Heq.
  - intros setAt' data'. unfold set_results; simpl. by rewrite insert_insert_eq.
Qed.

Lemma result_round_trip_witness :
  let day := 86400000000000 in
  GetResult day "t-1" (SetResult 0 "t-1" "[1]" empty_broker) = Some "[1]"%string
  ∧ GetResult (day + 1000000) "t-1" (SetResult 0 "t-1" "[1]" empty_broker) = None.
Proof.
  intros day.
  destruct (result_round_trip 0 day "t-1" "[1]" empty_broker) as (Hlive & _).
  destruct (result_round_trip 0 (day + 1000000) "t-1" "[1]" empty_broker) as (_ & Hgone & _).
  split.
  - apply Hlive. vm_compute. discriminate.
  - apply Hgone. vm_compute. reflexivity.
Defined.

(** ** Inspection *)

Lemma list_key_of_name_key k : list_key_of_name (key_name k) = Some k.
Proof. by destruct k. Qed.

Lemma omap_length_le {A B} (f : A → option B) (l : list A) :
  (length (omap f l) <= length l)%nat.
Proof. induction l as [|x l IH]; csimpl; [done|]. destruct (f x); csimpl; lia. Qed.

(** X12. [InspectQueue] of a list with a limit of at least 1 decodes the
    first [limit] entries in queue order, skipping those that do not
    decode, so it returns at most [limit] tasks; of the delay set it takes
    the members of lowest score. A limit of 0 lifts the bound: the range
    [0 .. -1] is the whole list. *)
Theorem inspect_queue_prefix `{Codec} (k : ListKey) (limit : Z) (st : Broker) :
  (1 <= limit →
   InspectQueue (key_name k) limit st
   = Some (omap json_unmarshal (take (Z.to_nat limit) (get_list k st)))
   ∧ InspectQueue "delayed_queue" limit st
     = Some (omap json_unmarshal (take (Z.to_nat limit) (map fst (delayed_queue st))))
   ∧ ∀ tasks, InspectQueue (key_name k) limit st = Some tasks →
              Z.of_nat (length tasks) <= limit)
  ∧ InspectQueue (key_name k) 0 st = Some (omap json_unmarshal (get_list k st)).
Proof.
  assert (Hname : String.eqb (key_name k) "delayed_queue" = false) by (by destruct k).
  split.
  - intros Hl.
    assert (Hrange : ∀ l, Redis.lrange0 (limit - 1) l = take (Z.to_nat limit) l).
    { intros l. unfold Redis.lrange0. destruct (Z.ltb_spec (limit - 1) 0); [lia|].
      f_equal. lia. }
    assert (Hk : InspectQueue (key_name k) limit st
                 = Some (omap json_unmarshal (take (Z.to_nat limit) (get_list k st)))).
    { unfold InspectQueue. by rewrite Hname, list_key_of_name_key, Hrange. }
    split; [exact Hk|]. split.
    + unfold InspectQueue. simpl. by rewrite Hrange.
    + intros tasks Ht. rewrite Hk in Ht. injection Ht as <-.
      pose proof (omap_length_le json_unmarshal (take (Z.to_nat limit) (get_list k st)))
        as Hle.
      rewrite length_take in Hle. lia.
  - unfold InspectQueue. by rewrite Hname, list_key_of_name_key.
Qed.

Lemma inspect_queue_prefix_witness :
  let raw := Sample.render Sample.task1 in
  let st := set_list QHigh [raw; "junk"; raw]%string empty_broker in
  @InspectQueue Sample.codec "queue:high" 2 st = Some [Sample.task1]
  ∧ @InspectQueue Sample.codec "queue:high" 0 st = Some [Sample.task1; Sample.task1].
Proof.
  intros raw st.
  destruct (@inspect_queue_prefix Sample.codec QHigh 2 st) as (Hlim & _).
  destruct (@inspect_queue_prefix Sample.codec QHigh 0 st) as (_ & Hall).
  destruct Hlim as (Hk & _); [lia|].
  split.
  - change "queue:high"%string with (key_name QHigh). rewrite Hk. reflexivity.
  - change "queue:high"%string with (key_name QHigh). rewrite Hall. reflexivity.
Defined.

Lemma result_lookup setAt taskID data st :
  (∀ readAt, unix_millis readAt <= unix_millis setAt + result_ttl →
             GetResult readAt taskID (SetResult setAt taskID data st) = Some data)
  ∧ (∀ readAt, unix_millis setAt + result_ttl < unix_millis readAt →
               GetResult readAt taskID (SetResult setAt taskID data st) = None).
Proof.
  unfold GetResult, SetResult. simpl. rewrite lookup_insert_eq. split; intros readAt Ht.
  - destruct (Z.ltb_spec (unix_millis setAt + result_ttl) (unix_millis readAt)); [lia|done].
  - destruct (Z.ltb_spec (unix_millis setAt + result_ttl) (unix_millis readAt)); [done|lia].
Qed.

(** ** The worker loop *)

Lemma dequeue_keeps_in_flight `{Codec} st :
  processing_queue st `prefix_of` processing_queue (Dequeue st).2.
Proof.
  unfold Dequeue.
  destruct (queue_high st) as [|r rest] eqn:Hh.
  2:{ rewrite (dequeue_loop_cons_hit QHigh _ st r rest Hh).
      destruct st; simpl. by apply prefix_app_r. }
  rewrite dequeue_loop_cons_miss by done.
  destruct (queue_default st) as [|r rest] eqn:Hd.
  2:{ rewrite (dequeue_loop_cons_hit QDefault _ st r rest Hd).
      destruct st; simpl. by apply prefix_app_r. }
  rewrite dequeue_loop_cons_miss by done.
  destruct (queue_low st) as [|r rest] eqn:Hl.
  2:{ rewrite (dequeue_loop_cons_hit QLow _ st r rest Hl).
      destruct st; simpl. by apply prefix_app_r. }
  by rewrite dequeue_loop_cons_miss by done.
Qed.

(** X13. A task the rate limiter denies is not dispatched: whatever the
    handlers are, the iteration calls [Retry], which counts as a retry
    (the task re-enters the delay set with its count incremented). The
    limit of three retries is not looked at on this path: a task at count
    3 or more is retried too, and the dead-letter list is not touched. *)
Theorem rate_limited_task_is_retried `{Codec} `{Handlers} (tAllow tEnd : Z)
    (st st1 st2 : Broker) (task : Task) (raw : string) :
  Dequeue st = (DqTask task raw, st1) →
  Allow tAllow (String.append "ratelimit:" (Type_ task)) 10 20 st1 = (false, st2) →
  worker_iteration tAllow tEnd st = ignore_error (Retry tEnd task raw st2) st2
  ∧ (∀ other : Handlers,
       @worker_iteration _ other tAllow tEnd st = worker_iteration tAllow tEnd st)
  ∧ (∀ data,
       0 <= RetryCount task < Int64.max_int →
       json_marshal (with_retry_count task (RetryCount task + 1)) = Some data →
       ∃ score,
         worker_iteration tAllow tEnd st =
           Ok (mkBroker (queue_high st2) (queue_default st2) (queue_low st2)
                 (Redis.remove_first 1 raw (processing_queue st2))
                 (dead_letter_queue st2) (completed_queue st2)
                 (Redis.zadd score data (delayed_queue st2))
                 (ratelimit st2) (results st2))).
Proof.
  intros Hdq Hallow.
  assert (Hrun : ∀ hs : Handlers,
             @worker_iteration _ hs tAllow tEnd st
             = ignore_error (Retry tEnd task raw st2) st2).
  { intros hs. unfold worker_iteration. by rewrite Hdq, Hallow. }
  split; [apply Hrun|]. split.
  - intros other. by rewrite !Hrun.
  - intros data Hk Hm. rewrite Hrun.
    destruct (Retry_any_count tEnd task raw st2 data Hk Hm) as (score & Hr & _).
    exists score. by rewrite Hr.
Qed.

Lemma rate_limited_task_is_retried_witness :
  let task := with_retry_count Sample.task1 7 in
  let raw := Sample.render task in
  let empty_bucket : gmap string Bucket := {[ "ratelimit:email"%string := mkBucket 0 1700000000 ]} in
  let st := set_ratelimit empty_bucket (set_list QDefault [raw] empty_broker) in
  ∃ st',
    @worker_iteration Sample.codec Sample.failing 1700000000000000000 1700000000500000000 st
    = Ok st'
    ∧ map fst (delayed_queue st') = [Sample.render (with_retry_count task 8)]
    ∧ dead_letter_queue st' = []
    ∧ processing_queue st' = [].
Proof.
  intros task raw empty_bucket st.
  destruct (@Allow 1700000000000000000 (String.append "ratelimit:" (Type_ task)) 10 20
              (set_list Processing [raw] (set_ratelimit empty_bucket empty_broker)))
    as [allowed st2] eqn:Hallow.
  assert (Hal : allowed = false).
  { apply (f_equal fst) in Hallow. vm_compute in Hallow. congruence. }
  subst allowed.
  assert (Hst2 : processing_queue st2 = [raw] ∧ dead_letter_queue st2 = []
                 ∧ delayed_queue st2 = []).
  { apply (f_equal snd) in Hallow. simpl in Hallow. subst st2. repeat split. }
  destruct Hst2 as (Hp & Hdl & Hz).
  destruct (@rate_limited_task_is_retried Sample.codec Sample.failing
              1700000000000000000 1700000000500000000
              st (set_list Processing [raw] (set_ratelimit empty_bucket empty_broker))
              st2 task raw) as (_ & _ & Heff); [reflexivity | exact Hallow |].
  destruct (Heff (Sample.render (with_retry_count task 8))) as (score & Hrun);
    [vm_compute; split; [discriminate|reflexivity] | reflexivity |].
  eexists. split; [exact Hrun|]. simpl. rewrite Hp, Hdl, Hz. repeat split.
Defined.

(** X14. An iteration that gets no task does nothing more. With the
    ready queues empty the broker is left as it is. With a head entry that
    does not decode, the entry has moved to the in-flight list and the
    iteration ends there: no rate-limit check, no handler, no retry, no
    dead-lettering. No later [Dequeue] takes an entry out of the in-flight
    list. *)
Theorem iteration_without_task `{Codec} `{Handlers} (tAllow tEnd : Z) (st : Broker) :
  (queue_high st = [] → queue_default st = [] → queue_low st = [] →
   worker_iteration tAllow tEnd st = Ok st)
  ∧ (∀ r rest,
       queue_high st = r :: rest → json_unmarshal r = None →
       worker_iteration tAllow tEnd st =
         Ok (mkBroker rest (queue_default st) (queue_low st) (processing_queue st ++ [r])
               (dead_letter_queue st) (completed_queue st) (delayed_queue st)
               (ratelimit st) (results st)))
  ∧ (∀ st1,
       Dequeue st = (DqError, st1) →
       worker_iteration tAllow tEnd st = Ok st1
       ∧ dead_letter_queue st1 = dead_letter_queue st
       ∧ completed_queue st1 = completed_queue st
       ∧ delayed_queue st1 = delayed_queue st
       ∧ ratelimit st1 = ratelimit st
       ∧ results st1 = results st)
  ∧ (∀ s, processing_queue s `prefix_of` processing_queue (Dequeue s).2).
Proof.
  repeat apply conj.
  - intros Hh Hd Hl. unfold worker_iteration, Dequeue.
    by rewrite !dequeue_loop_cons_miss by done.
  - intros r rest Hh Hu. unfold worker_iteration, Dequeue.
    rewrite (dequeue_loop_cons_hit QHigh _ st r rest Hh), Hu.
    by destruct st; simpl in *; subst.
  - intros st1 Hdq.
    destruct (dequeue_frame st) as (Hdl & Hc & Hz & Hr & Hres).
    rewrite Hdq in Hdl, Hc, Hz, Hr, Hres.
    unfold worker_iteration. by rewrite Hdq.
  - intros s. apply dequeue_keeps_in_flight.
Qed.

Lemma iteration_without_task_witness :
  @worker_iteration Sample.codec Sample.handlers 0 0
    (set_list QHigh ["junk"%string] empty_broker)
  = Ok (set_list Processing ["junk"%string] empty_broker).
Proof.
  destruct (@iteration_without_task Sample.codec Sample.handlers 0 0
              (set_list QHigh ["junk"%string] empty_broker)) as (_ & Hbad & _).
  rewrite (Hbad "junk"%string []); reflexivity.
Defined.

(** X15. When the handler succeeds, the iteration completes the task and
    stores its result under the task's id: the token leaves the in-flight
    list and joins the completed list, the delay set and the dead-letter
    list are left alone, and the result can be read for 24 hours. For a
    task whose id is not empty, [GET /result?id=<id>] on that broker, with
    the key check disabled, answers 200 with the stored result while the
    24 hours run and 404 once they have passed; it changes nothing. *)
Theorem completed_task_result `{Codec} `{Handlers} `{Wire} (tAllow tEnd : Z)
    (st st1 st2 : Broker) (task : Task) (raw : string) :
  Dequeue st = (DqTask task raw, st1) →
  Allow tAllow (String.append "ratelimit:" (Type_ task)) 10 20 st1 = (true, st2) →
  dispatch task = false →
  ∃ st3,
    worker_iteration tAllow tEnd st = Ok st3
    ∧ processing_queue st3 = Redis.remove_first 1 raw (processing_queue st2)
    ∧ completed_queue st3 = last_n 100 (completed_queue st2 ++ [raw])
    ∧ delayed_queue st3 = delayed_queue st2
    ∧ dead_letter_queue st3 = dead_letter_queue st2
    ∧ (∀ readAt,
         unix_millis readAt <= unix_millis tEnd + result_ttl →
         GetResult readAt (ID task) st3 = Some (completion_summary tEnd))
    ∧ (∀ readAt,
         unix_millis tEnd + result_ttl < unix_millis readAt →
         GetResult readAt (ID task) st3 = None)
    ∧ (∀ uuid now r entries,
         ID task ≠ EmptyString →
         Path r = "/result"%string →
         Method r ≠ "OPTIONS"%string →
         query_get "id" r = ID task →
         (setupRouter uuid now EmptyString r (new_response, mkServer st3 entries)).2
         = mkServer st3 entries
         ∧ (unix_millis now <= unix_millis tEnd + result_ttl →
            status_code (setupRouter uuid now EmptyString r
                           (new_response, mkServer st3 entries)).1 = StatusOK
            ∧ resp_body (setupRouter uuid now EmptyString r
                           (new_response, mkServer st3 entries)).1 = completion_summary tEnd)
         ∧ (unix_millis tEnd + result_ttl < unix_millis now →
            status_code (setupRouter uuid now EmptyString r
                           (new_response, mkServer st3 entries)).1 = StatusNotFound)).
Proof.
  intros Hdq Hallow Hok.
  exists (SetResult tEnd (ID task) (completion_summary tEnd) (Complete raw st2)).
  destruct (result_lookup tEnd (ID task) (completion_summary tEnd) (Complete raw st2))
    as (Hlive & Hgone).
  split.
  { unfold worker_iteration. rewrite Hdq, Hallow. simpl. unfold settle. by rewrite Hok. }
  rewrite Complete_unfold. rewrite Complete_unfold in Hlive, Hgone.
  do 4 (split; [done|]). split; [exact Hlive|]. split; [exact Hgone|].
  intros uuid now r entries Hid Hp Hm Hq.
  assert (Hrun : ∀ ws, setupRouter uuid now EmptyString r ws = resultHandler now r
                         (let '(w, s) := ws in
                          (header_set "Access-Control-Allow-Headers"
           "Accept, Content-Type, Content-Length, Accept-Encoding, X-CSRF-Token, Authorization, X-API-Key"
                             (header_set "Access-Control-Allow-Methods"
                                "POST, GET, OPTIONS, PUT, DELETE"
                                (header_set "Access-Control-Allow-Origin" "*" w)), s))).
  { intros [w s]. unfold setupRouter, endpoint. rewrite Hp. simpl String.eqb. cbv iota.
    unfold enableCORS. apply String.eqb_neq in Hm. rewrite Hm. by rewrite auth_disabled. }
  rewrite Hrun. unfold resultHandler. rewrite Hq.
  apply String.eqb_neq in Hid. rewrite Hid. cbn [broker].
  split; [by destruct (GetResult now (ID task) _)|]. split.
  - intros Hl. rewrite (Hlive now Hl). repeat split.
  - intros Hg. rewrite (Hgone now Hg). repeat split.
Qed.

Lemma completed_task_result_witness :
  let raw := Sample.render Sample.task1 in
  let st := set_list QDefault [raw] empty_broker in
  ∃ st3,
    @worker_iteration Sample.codec Sample.handlers 1700000000000000000 1700000001000000000 st
    = Ok st3
    ∧ GetResult 1700000002000000000 "t-1" st3
      = Some (@completion_summary Sample.handlers 1700000001000000000)
    ∧ completed_queue st3 = last_n 100 ([] ++ [raw]).
Proof.
  intros raw st.
  destruct (@Allow 1700000000000000000 (String.append "ratelimit:" (Type_ Sample.task1)) 10 20
              (set_list Processing [raw] empty_broker)) as [allowed st2] eqn:Hallow.
  assert (Hal : allowed = true).
  { apply (f_equal fst) in Hallow. vm_compute in Hallow. congruence. }
  subst allowed.
  assert (Hc2 : completed_queue st2 = []).
  { apply (f_equal snd) in Hallow. simpl in Hallow. by subst st2. }
  destruct (@completed_task_result Sample.codec Sample.handlers Sample.wire
              1700000000000000000 1700000001000000000
              st (set_list Processing [raw] empty_broker) st2 Sample.task1 raw)
    as (st3 & Hrun & _ & Hc & _ & _ & Hres & _);
    [reflexivity | exact Hallow | reflexivity |].
  exists st3. split; [exact Hrun|]. split; [|by rewrite Hc, Hc2].
  apply Hres. vm_compute. discriminate.
Defined.

(** ** More on the HTTP surface *)

Section MoreRouterFacts.

Context `{Codec} `{Wire}.
Variable uuid : string.
Variable now : Z.

Lemma router_passes_auth apiKey r s handler :
  endpoint uuid now (Path r) = Some handler →
  Method r ≠ "OPTIONS"%string →
  apiKey = EmptyString ∨ header_get "X-API-Key" r = apiKey →
  setupRouter uuid now apiKey r (new_response, s)
  = handler r
      (header_set "Access-Control-Allow-Headers"
         "Accept, Content-Type, Content-Length, Accept-Encoding, X-CSRF-Token, Authorization, X-API-Key"
         (header_set "Access-Control-Allow-Methods" "POST, GET, OPTIONS, PUT, DELETE"
            (header_set "Access-Control-Allow-Origin" "*" new_response)), s).
Proof.
  intros He Hm Hkey. unfold setupRouter. rewrite He. unfold enableCORS.
  apply String.eqb_neq in Hm. rewrite Hm.
  destruct Hkey as [->|Hh]; [apply auth_disabled|by apply auth_accepts].
Qed.

End MoreRouterFacts.

(** X16. A [POST /schedule] with a body that decodes and a cron
    expression the parser accepts is answered 200, registers one entry,
    the expression with the template task built from the body, after the
    entries already there, and leaves the broker alone; a rejected
    expression is answered 400 and registers nothing. A firing of an
    entry at time [t] is [Enqueue] of its template with the creation time
    set to [t] and nothing else changed, so the id made at registration
    is reused by every firing. For every template, registered by the
    endpoint or not: a firing whose task does not encode fails and leaves
    the broker as it is; otherwise it appends the encoding to
    [queue:high] for priority 2, to [queue:low] for priority 0 and to
    [queue:default] for every other priority. A body without a priority
    field makes a template of priority 0, which every firing puts on
    [queue:low]. *)
Theorem schedule_then_fire `{Codec} `{Wire} (uuid : string) (now : Z)
    (apiKey : string) (r : Request) (s : Server) (b : BodyFields) :
  Path r = "/schedule"%string →
  Method r = "POST"%string →
  apiKey = EmptyString ∨ header_get "X-API-Key" r = apiKey →
  decode_body (Body r) = Some b →
  (cron_parse_ok (default EmptyString (f_spec b)) = true →
   status_code (setupRouter uuid now apiKey r (new_response, s)).1 = StatusOK
   ∧ (setupRouter uuid now apiKey r (new_response, s)).2
     = mkServer (broker s)
         (cron_entries s ++ [(default EmptyString (f_spec b), task_of_body uuid now b)]))
  ∧ (cron_parse_ok (default EmptyString (f_spec b)) = false →
     status_code (setupRouter uuid now apiKey r (new_response, s)).1 = StatusBadRequest
     ∧ (setupRouter uuid now apiKey r (new_response, s)).2 = s)
  ∧ (∀ t st,
       cron_fire t (task_of_body uuid now b) st
       = Enqueue (mkTask uuid (default EmptyString (f_type b))
                    (default "null"%string (f_payload b)) t 0
                    (default 0 (f_priority b))) st)
  ∧ (∀ task t st,
       cron_fire t task st
       = Enqueue (mkTask (ID task) (Type_ task) (Payload task) t
                    (RetryCount task) (Priority task)) st)
  ∧ (∀ task t st,
       json_marshal (with_created_at task t) = None →
       cron_fire t task st = Failed)
  ∧ (∀ task t data st,
       json_marshal (with_created_at task t) = Some data →
       cron_fire t task st
       = Ok (RPush (if Priority task =? 2 then QHigh
                    else if Priority task =? 0 then QLow else QDefault) data st)
       ∧ (Priority task = 2 →
          cron_fire t task st
          = Ok (set_list QHigh (queue_high st ++ [data]) st))
       ∧ (Priority task = 0 →
          cron_fire t task st
          = Ok (set_list QLow (queue_low st ++ [data]) st))
       ∧ (Priority task ≠ 2 → Priority task ≠ 0 →
          cron_fire t task st
          = Ok (set_list QDefault (queue_default st ++ [data]) st)))
  ∧ (f_priority b = None →
     ∀ t data st,
       json_marshal (with_created_at (task_of_body uuid now b) t) = Some data →
       cron_fire t (task_of_body uuid now b) st = Ok (RPush QLow data st)).
Proof.
  intros Hp Hm Hkey Hd.
  assert (Hrun := router_passes_auth uuid now apiKey r s (scheduleHandler uuid now)).
  rewrite Hrun; [|by unfold endpoint; rewrite Hp|by rewrite Hm|done].
  unfold scheduleHandler. rewrite Hm, Hd. simpl negb. cbv iota.
  split; [intros Hok; rewrite Hok; repeat split|].
  split; [intros Hbad; rewrite Hbad; repeat split|].
  split; [reflexivity|].
  split; [reflexivity|].
  split; [intros task t st Hnone; unfold cron_fire, Enqueue; by rewrite Hnone|].
  split.
  - intros task t data st Hdata.
    assert (Hfire : cron_fire t task st
                    = Ok (RPush (if Priority task =? 2 then QHigh
                                 else if Priority task =? 0 then QLow else QDefault) data st)).
    { unfold cron_fire, Enqueue. rewrite Hdata. reflexivity. }
    split; [exact Hfire|]. rewrite Hfire. split; [|split].
    + intros Hprio. rewrite Hprio. reflexivity.
    + intros Hprio. rewrite Hprio. reflexivity.
    + intros Hh Hl. apply Z.eqb_neq in Hh, Hl. rewrite Hh, Hl. reflexivity.
  - intros Hprio t data st Hdata. unfold cron_fire.
    apply (Enqueue_route _ _ _ Hdata). simpl. by rewrite Hprio.
Qed.

Lemma schedule_then_fire_witness :
  let body := Sample.cat ["{"; Sample.quote; "spec"; Sample.quote; ":"; Sample.quote;
                          "@every 1m"; Sample.quote; ","; Sample.quote; "type";
                          Sample.quote; ":"; Sample.quote; "report"; Sample.quote;
                          Sample.member "payload"; "{}"; Sample.member "priority";
                          "2"; "}"]%string in
  let r := mkRequest "POST" "/schedule" ∅ ∅ body in
  let s := mkServer empty_broker [] in
  let template := mkTask "id-1" "report" "{}" 0 0 2 in
  status_code (@setupRouter Sample.codec Sample.schedule_wire "id-1" 0 EmptyString r
                 (new_response, s)).1 = StatusOK
  ∧ (@setupRouter Sample.codec Sample.schedule_wire "id-1" 0 EmptyString r
       (new_response, s)).2
    = mkServer empty_broker [("@every 1m"%string, template)]
  ∧ @cron_fire Sample.codec 5 template empty_broker
    = Ok (set_list QHigh [Sample.render (mkTask "id-1" "report" "{}" 5 0 2)] empty_broker).
Proof.
  intros body r s template.
  destruct (@schedule_then_fire Sample.codec Sample.schedule_wire "id-1" 0 EmptyString r s
              (mkBody (Some "@every 1m"%string) (Some "report"%string)
                 (Some "{}"%string) (Some 2)))
    as (Hok & _ & _ & _ & _ & Hfire & _);
    [reflexivity | reflexivity | by left | reflexivity |].
  destruct (Hok eq_refl) as (Hstatus & Hserver).
  destruct (Hfire template 5 (Sample.render (mkTask "id-1" "report" "{}" 5 0 2)) empty_broker
              eq_refl) as (_ & Hhigh & _).
  split; [exact Hstatus|]. split; [exact Hserver|].
  exact (Hhigh eq_refl).
Defined.

(** X17. Only an answer 200 of [POST /enqueue] or [POST /schedule]
    changes what the server holds: a request answered with another status
    leaves the broker and the cron entries as they are, and so does every
    request to another path and every [OPTIONS] request. *)
Theorem failed_request_changes_nothing `{Codec} `{Wire} (uuid : string) (now : Z)
    (apiKey : string) (r : Request) (s : Server) :
  (status_code (setupRouter uuid now apiKey r (new_response, s)).1 ≠ StatusOK →
   (setupRouter uuid now apiKey r (new_response, s)).2 = s)
  ∧ (Path r ≠ "/enqueue"%string → Path r ≠ "/schedule"%string →
     (setupRouter uuid now apiKey r (new_response, s)).2 = s)
  ∧ (Method r = "OPTIONS"%string →
     (setupRouter uuid now apiKey r (new_response, s)).2 = s).
Proof.
  repeat apply conj.
  - unfold setupRouter, endpoint, enableCORS, authMiddleware,
      enqueueHandler, resultHandler, scheduleHandler, statsHandler, tasksHandler, NotFound.
    repeat (first [progress simplify_eq | progress cbn beta iota zeta | case_match]);
      simplify_eq; simpl; try done;
      intros Hs; exfalso; apply Hs; reflexivity.
  - intros He Hs. apply String.eqb_neq in He, Hs.
    unfold setupRouter, endpoint, enableCORS, authMiddleware,
      resultHandler, statsHandler, tasksHandler, NotFound.
    rewrite He, Hs.
    repeat (first [progress simplify_eq | progress cbn beta iota zeta | case_match]); simplify_eq; simpl; done.
  - intros Hm.
    unfold setupRouter, endpoint, enableCORS, NotFound. rewrite Hm.
    repeat (first [progress simplify_eq | progress cbn beta iota zeta | case_match]); simplify_eq; simpl; done.
Qed.

Lemma failed_request_changes_nothing_witness :
  let r := mkRequest "GET" "/enqueue" ∅ ∅ EmptyString in
  let s := mkServer empty_broker [] in
  (@setupRouter Sample.codec Sample.wire "id-1" 0 EmptyString r (new_response, s)).2 = s.
Proof.
  intros r s.
  destruct (@failed_request_changes_nothing Sample.codec Sample.wire "id-1" 0 EmptyString r s)
    as (Hfail & _).
  apply Hfail. vm_compute. discriminate.
Defined.

(** X18. Every answer of a registered endpoint, the 401 of the key check
    and the 200 of a preflight included, carries the header
    [Access-Control-Allow-Origin: *]; the 404 of an unknown path does
    not. *)
Theorem cors_header_on_every_endpoint `{Codec} `{Wire} (uuid : string) (now : Z)
    (apiKey : string) (r : Request) (s : Server) :
  (∀ handler,
     endpoint uuid now (Path r) = Some handler →
     resp_header (setupRouter uuid now apiKey r (new_response, s)).1
       !! "Access-Control-Allow-Origin"%string = Some "*"%string)
  ∧ (endpoint uuid now (Path r) = None →
     resp_header (setupRouter uuid now apiKey r (new_response, s)).1
       !! "Access-Control-Allow-Origin"%string = None).
Proof.
  split.
  - intros handler He. unfold setupRouter. rewrite He.
    unfold endpoint in He.
    repeat case_match; simplify_eq;
      unfold enableCORS, authMiddleware,
        enqueueHandler, resultHandler, scheduleHandler, statsHandler, tasksHandler;
      repeat (first [progress simplify_eq | progress cbn beta iota zeta | case_match]); simplify_eq; reflexivity.
  - intros He. unfold setupRouter. rewrite He. reflexivity.
Qed.

Lemma cors_header_on_every_endpoint_witness :
  let r := mkRequest "POST" "/enqueue" ∅ ∅ EmptyString in
  let s := mkServer empty_broker [] in
  resp_header (@setupRouter Sample.codec Sample.wire "id-1" 0 "secret-key" r (new_response, s)).1
    !! "Access-Control-Allow-Origin"%string = Some "*"%string.
Proof.
  intros r s.
  destruct (@cors_header_on_every_endpoint Sample.codec Sample.wire "id-1" 0 "secret-key" r s)
    as (Hcors & _).
  apply (Hcors (@enqueueHandler Sample.codec Sample.wire "id-1" 0)). reflexivity.
Defined.

(** ** More on the rate limiter *)




(** ** A whole retry cycle *)

(** X20. Retry, promotion and dequeue compose: on a broker with empty
    ready queues and an empty delay set, a task retried at count [k] is,
    after a scheduler run whose [now] has reached its score, what the
    next [Dequeue] returns — decoded from the encoding made with count
    [k + 1], which is the new raw token at the tail of the in-flight
    list. *)
Theorem retry_cycle `{Codec} (now : Z) (task task' : Task) (raw data : string)
    (st : Broker) :
  queue_high st = [] → queue_default st = [] → queue_low st = [] →
  delayed_queue st = [] →
  0 <= RetryCount task < Int64.max_int →
  json_marshal (with_retry_count task (RetryCount task + 1)) = Some data →
  json_unmarshal data = Some task' →
  ∃ score st1,
    Retry now task raw st = Ok st1
    ∧ delayed_queue st1 = [(data, score)]
    ∧ ∀ tick, score <= tick →
        (promote_script tick st1).1 = 1
        ∧ Dequeue (promote_script tick st1).2 =
            (DqTask task' data,
             mkBroker [] [] [] (Redis.remove_first 1 raw (processing_queue st) ++ [data])
               (dead_letter_queue st) (completed_queue st) []
               (ratelimit st) (results st)).
Proof.
  intros Hh Hd Hl Hz Hk Hm Hu.
  destruct (Retry_any_count now task raw st data Hk Hm) as (score & Hr & _).
  eexists score, _. split; [exact Hr|].
  split; [cbn [delayed_queue]; by rewrite Hz|].
  intros tick Htick. rewrite promote_script_unfold.
  cbn [queue_high queue_default queue_low processing_queue dead_letter_queue
       completed_queue delayed_queue ratelimit results fst snd].
  rewrite Hh, Hd, Hl, Hz. unfold due_entries, Redis.zadd. simpl.
  destruct (Z.leb_spec score tick); [|lia]. simpl. split; [done|].
  unfold Dequeue.
  rewrite dequeue_loop_cons_miss by done.
  rewrite (dequeue_loop_cons_hit QDefault _ _ data []) by done.
  by rewrite Hu.
Qed.

Lemma retry_cycle_witness :
  let st := set_list Processing [Sample.render Sample.task1] empty_broker in
  let data := Sample.render (with_retry_count Sample.task1 1) in
  ∃ st1,
    @Retry Sample.codec 1700000000000000000 Sample.task1 (Sample.render Sample.task1) st
    = Ok st1
    ∧ (@Dequeue Sample.codec (promote_script 1700000000200000000 st1).2).1
      = DqTask (with_retry_count Sample.task1 1) data.
Proof.
  intros st data.
  destruct (@retry_cycle Sample.codec 1700000000000000000 Sample.task1
              (with_retry_count Sample.task1 1) (Sample.render Sample.task1) data st)
    as (score & st1 & Hr & Hz & Hcycle);
    [reflexivity | reflexivity | reflexivity | reflexivity
    | vm_compute; split; [discriminate|reflexivity] | reflexivity | reflexivity |].
  exists st1. split; [exact Hr|].
  assert (Hscore : score = 1700000000200000000).
  { vm_compute in Hr. injection Hr as <-. simpl in Hz. congruence. }
  destruct (Hcycle 1700000000200000000) as (_ & Hdq); [lia|]. by rewrite Hdq.
Defined.
